(** * sales2.py: monthly aggregation, growth and one-step forecast

    A shallow embedding of the data pipeline of [sales2.py] (the Streamlit
    sales dashboard) and the properties of its KPI layer.

    Modelling conventions.
    - A pandas DataFrame is a list of row records, in row order.
    - [Month_Period] (a first-of-month Timestamp) is a (year, month) record;
      Timestamps compare by their position on the time line, here the number
      of months since year 0.
    - Numbers of the script are binary64 floats.  They are modelled by exact
      rationals [Qc] extended with the two infinities and NaN ([fval]), with
      the IEEE rules for the special values; rounding and the sign of zero
      are abstracted.  The square root of [Series.std] lives in [R].
      Module [Binary64] replays the forecast arithmetic with the machine
      operations, to show where rounding matters.
    - The Streamlit widgets are inputs: the three multiselect results are the
      arguments [category_filter], [gender_filter] and [month_filter]. *)

From Stdlib Require Import ZArith List Bool Ascii String.
From Stdlib Require Import QArith Qcanon Qreals Reals Lia Lra.
From Stdlib Require Import Sorted Permutation DecimalString DecimalZ.
From Stdlib Require PrimFloat.
Import ListNotations.

Local Open Scope Z_scope.

(* ------------------------------------------------------------------ *)
(** ** Calendar: month periods, [pd.DateOffset(months=1)], [strftime]  *)
(* ------------------------------------------------------------------ *)

Module Calendar.

Inductive month_name : Type :=
| January | February | March | April | May | June
| July | August | September | October | November | December.

Definition month_number (m : month_name) : Z :=
  match m with
  | January => 1 | February => 2 | March => 3 | April => 4
  | May => 5 | June => 6 | July => 7 | August => 8
  | September => 9 | October => 10 | November => 11 | December => 12
  end.

(** A parsed calendar date (a non-NaT result of [pd.to_datetime]). *)
Record Timestamp : Type :=
  mkDate { d_year : Z; d_month : month_name; d_day : Z }.

(** [Month_Period]: the first day of a calendar month. *)
Record MonthPeriod : Type := mkPeriod { mp_year : Z; mp_month : month_name }.

(** [dt.to_period('M').dt.to_timestamp()] *)
Definition to_month_period (d : Timestamp) : MonthPeriod :=
  mkPeriod (d_year d) (d_month d).

(** Position of a period on the time line, in months. *)
Definition ord (p : MonthPeriod) : Z :=
  12 * mp_year p + (month_number (mp_month p) - 1).

Definition mp_eqb (a b : MonthPeriod) : bool := ord a =? ord b.
Definition mp_ltb (a b : MonthPeriod) : bool := ord a <? ord b.
Definition mp_leb (a b : MonthPeriod) : bool := ord a <=? ord b.
Definition mp_lt (a b : MonthPeriod) : Prop := ord a < ord b.

(** [p - pd.DateOffset(months=1)] on a first-of-month Timestamp *)
Definition minus_one_month (p : MonthPeriod) : MonthPeriod :=
  match mp_month p with
  | January => mkPeriod (mp_year p - 1) December
  | February => mkPeriod (mp_year p) January
  | March => mkPeriod (mp_year p) February
  | April => mkPeriod (mp_year p) March
  | May => mkPeriod (mp_year p) April
  | June => mkPeriod (mp_year p) May
  | July => mkPeriod (mp_year p) June
  | August => mkPeriod (mp_year p) July
  | September => mkPeriod (mp_year p) August
  | October => mkPeriod (mp_year p) September
  | November => mkPeriod (mp_year p) October
  | December => mkPeriod (mp_year p) November
  end.

(** [p + pd.DateOffset(months=1)] *)
Definition plus_one_month (p : MonthPeriod) : MonthPeriod :=
  match mp_month p with
  | January => mkPeriod (mp_year p) February
  | February => mkPeriod (mp_year p) March
  | March => mkPeriod (mp_year p) April
  | April => mkPeriod (mp_year p) May
  | May => mkPeriod (mp_year p) June
  | June => mkPeriod (mp_year p) July
  | July => mkPeriod (mp_year p) August
  | August => mkPeriod (mp_year p) September
  | September => mkPeriod (mp_year p) October
  | October => mkPeriod (mp_year p) November
  | November => mkPeriod (mp_year p) December
  | December => mkPeriod (mp_year p + 1) January
  end.

(** [%B] *)
Definition full_name (m : month_name) : string :=
  match m with
  | January => "January" | February => "February" | March => "March"
  | April => "April" | May => "May" | June => "June"
  | July => "July" | August => "August" | September => "September"
  | October => "October" | November => "November" | December => "December"
  end.

(** [%b] *)
Definition abbr_name (m : month_name) : string :=
  match m with
  | January => "Jan" | February => "Feb" | March => "Mar"
  | April => "Apr" | May => "May" | June => "Jun"
  | July => "Jul" | August => "Aug" | September => "Sep"
  | October => "Oct" | November => "Nov" | December => "Dec"
  end.

(** [%Y] *)
Definition year_string (y : Z) : string :=
  NilEmpty.string_of_int (Z.to_int y).

(** [strftime('%B %Y')] and [strftime('%b %Y')] *)
Definition strftime_B_Y (p : MonthPeriod) : string :=
  (full_name (mp_month p) ++ " " ++ year_string (mp_year p))%string.

Definition strftime_b_Y (p : MonthPeriod) : string :=
  (abbr_name (mp_month p) ++ " " ++ year_string (mp_year p))%string.

End Calendar.

(* ------------------------------------------------------------------ *)
(** ** Numbers: exact rationals with the IEEE special values           *)
(* ------------------------------------------------------------------ *)

Module Num.

Inductive fval : Type :=
| Fin (q : Qc)
| PInf
| NInf
| NaN.

Definition qz (z : Z) : Qc := Q2Qc (inject_Z z).

Definition zero : fval := Fin (qz 0).
Definition one : fval := Fin (qz 1).
Definition hundred : fval := Fin (qz 100).

(** [pd.notna] *)
Definition notna (x : fval) : bool :=
  match x with NaN => false | _ => true end.

(** Sign of a value; NaN has none. *)
Definition sign (x : fval) : option comparison :=
  match x with
  | Fin q => Some (Qccompare q (qz 0))
  | PInf => Some Gt
  | NInf => Some Lt
  | NaN => None
  end.

Definition fneg (x : fval) : fval :=
  match x with
  | Fin q => Fin (- q)%Qc
  | PInf => NInf
  | NInf => PInf
  | NaN => NaN
  end.

Definition fadd (x y : fval) : fval :=
  match x, y with
  | NaN, _ | _, NaN => NaN
  | Fin a, Fin b => Fin (a + b)%Qc
  | PInf, NInf | NInf, PInf => NaN
  | PInf, _ | _, PInf => PInf
  | NInf, _ | _, NInf => NInf
  end.

Definition fsub (x y : fval) : fval := fadd x (fneg y).

(** An infinity of the sign of a product of two signs; a zero factor gives
    NaN. *)
Definition inf_of_signs (s t : comparison) : fval :=
  match s, t with
  | Eq, _ | _, Eq => NaN
  | Gt, Gt | Lt, Lt => PInf
  | Gt, Lt | Lt, Gt => NInf
  end.

Definition fmul (x y : fval) : fval :=
  match x, y with
  | Fin a, Fin b => Fin (a * b)%Qc
  | _, _ =>
      match sign x, sign y with
      | Some s, Some t => inf_of_signs s t
      | _, _ => NaN
      end
  end.

Definition fdiv (x y : fval) : fval :=
  match x, y with
  | NaN, _ | _, NaN => NaN
  | Fin a, Fin b =>
      if Qc_eq_bool b (qz 0)
      then match Qccompare a (qz 0) with
           | Eq => NaN
           | Gt => PInf
           | Lt => NInf
           end
      else Fin (a / b)%Qc
  | Fin _, _ => zero
  | PInf, Fin b => match Qccompare b (qz 0) with Lt => NInf | _ => PInf end
  | NInf, Fin b => match Qccompare b (qz 0) with Lt => PInf | _ => NInf end
  | _, _ => NaN
  end.

(** [x > y]; false as soon as one side is NaN. *)
Definition fgtb (x y : fval) : bool :=
  match x, y with
  | NaN, _ | _, NaN => false
  | Fin a, Fin b => match Qccompare a b with Gt => true | _ => false end
  | PInf, PInf => false
  | PInf, _ => true
  | _, NInf => match x with NInf => false | _ => true end
  | _, _ => false
  end.

End Num.

(* ------------------------------------------------------------------ *)
(** ** The pandas operations the script uses                           *)
(* ------------------------------------------------------------------ *)

Module Pandas.
Import Calendar Num.

(** [Series.isin(values)] on a string column *)
Definition isin (x : string) (values : list string) : bool :=
  existsb (String.eqb x) values.

(** One step of [groupby(key)[value].sum()]: the groups are kept in
    ascending key order ([sort=True], the default), a row joins the group of
    its key or opens a new one. *)
Fixpoint group_add (k : MonthPeriod) (v : Qc) (groups : list (MonthPeriod * Qc))
  : list (MonthPeriod * Qc) :=
  match groups with
  | [] => [(k, v)]
  | (k', v') :: rest =>
      if mp_ltb k k' then (k, v) :: groups
      else if mp_eqb k k' then (k', (v' + v)%Qc) :: rest
      else (k', v') :: group_add k v rest
  end.

(** [frame.groupby(key)[value].sum().reset_index()] *)
Definition groupby_sum {A : Type} (key : A -> MonthPeriod) (value : A -> Qc)
  (frame : list A) : list (MonthPeriod * Qc) :=
  fold_left (fun groups r => group_add (key r) (value r) groups) frame [].

(** [sort_values('Month_Period')]: ascending, by insertion. *)
Fixpoint sort_insert (x : MonthPeriod * Qc) (l : list (MonthPeriod * Qc))
  : list (MonthPeriod * Qc) :=
  match l with
  | [] => [x]
  | y :: rest =>
      if mp_leb (fst x) (fst y) then x :: l else y :: sort_insert x rest
  end.

Definition sort_values (frame : list (MonthPeriod * Qc))
  : list (MonthPeriod * Qc) :=
  fold_right sort_insert [] frame.

(** [Series.shift(1)]: every value moves one row down, the first row
    becomes NaN, the last value is dropped. *)
Definition shift1 (xs : list fval) : list fval :=
  firstn (List.length xs) (NaN :: xs).

(** [Series.pct_change()], that is [data / data.shift(1) - 1] *)
Definition pct_change (xs : list fval) : list fval :=
  map (fun xy => fsub (fdiv (fst xy) (snd xy)) one) (combine xs (shift1 xs)).

(** [Series.sum()] with [skipna=True]: NaN counts as 0. *)
Definition nansum (xs : list fval) : fval :=
  fold_left fadd (filter notna xs) zero.

(** Number of non-NaN entries. *)
Definition count (xs : list fval) : nat :=
  List.length (filter notna xs).

(** [Series.mean()] with [skipna=True]: the sum of the non-NaN entries over
    their number; 0/0, hence NaN, when there is none. *)
Definition mean (xs : list fval) : fval :=
  fdiv (nansum xs) (Fin (qz (Z.of_nat (count xs)))).

(** Sum of a column of finite numbers. *)
Definition qsum (xs : list Qc) : Qc := fold_left Qcplus xs (qz 0).

(** [nanvar] with [ddof=1] on a column of finite numbers: the squared
    deviations from the mean, summed, over [count - 1]; NaN ([None]) when
    [count <= ddof]. *)
Definition var (xs : list Qc) : option Qc :=
  let n := Z.of_nat (List.length xs) in
  if n <=? 1 then None
  else
    let avg := (qsum xs / qz n)%Qc in
    let sqr := map (fun x => ((avg - x) * (avg - x))%Qc) xs in
    Some (qsum sqr / qz (n - 1))%Qc.

(** [Series.std()]: the square root of [var]. *)
Definition std (xs : list Qc) : option R :=
  option_map (fun v => sqrt (Q2R (this v))) (var xs).

(** [frame.iloc[-1]] when the frame is not empty *)
Fixpoint iloc_last {A : Type} (frame : list A) : option A :=
  match frame with
  | [] => None
  | [x] => Some x
  | _ :: rest => iloc_last rest
  end.

(** Row of [Series.idxmax()]: the first row holding the maximum. *)
Fixpoint idxmax_from (best : MonthPeriod * Qc) (l : list (MonthPeriod * Qc))
  : MonthPeriod * Qc :=
  match l with
  | [] => best
  | x :: rest =>
      match Qccompare (snd x) (snd best) with
      | Gt => idxmax_from x rest
      | _ => idxmax_from best rest
      end
  end.

(** Row of [Series.idxmin()]: the first row holding the minimum. *)
Fixpoint idxmin_from (best : MonthPeriod * Qc) (l : list (MonthPeriod * Qc))
  : MonthPeriod * Qc :=
  match l with
  | [] => best
  | x :: rest =>
      match Qccompare (snd x) (snd best) with
      | Lt => idxmin_from x rest
      | _ => idxmin_from best rest
      end
  end.

End Pandas.

(* ------------------------------------------------------------------ *)
(** ** The script                                                      *)
(* ------------------------------------------------------------------ *)

Module Sales2.
Import Calendar Num Pandas.

(** A record of the CSV after [pd.to_datetime(..., dayfirst=True,
    errors='coerce')]: an unparseable date is NaT ([None]). *)
Record RawRow : Type := mkRaw {
  raw_Date : option Timestamp;
  raw_Product_Category : string;
  raw_Gender : string;
  raw_Total_Amount : Qc
}.

Record Row : Type := mkRow {
  Date : Timestamp;
  Product_Category : string;
  Gender : string;
  Total_Amount : Qc
}.

(** [df = df.dropna(subset=['Date'])] *)
Definition dropna_Date (raw : list RawRow) : list Row :=
  flat_map (fun r =>
    match raw_Date r with
    | Some d => [mkRow d (raw_Product_Category r) (raw_Gender r)
                   (raw_Total_Amount r)]
    | None => []
    end) raw.

(** The engineered columns. *)
Definition Month_Period (r : Row) : MonthPeriod := to_month_period (Date r).
Definition Month_Label (r : Row) : string := strftime_b_Y (Month_Period r).
Definition Month_Name (r : Row) : string := full_name (mp_month (Month_Period r)).

Section Run.

Variable df : list Row.
Variables category_filter gender_filter month_filter : list string.

Definition filtered_df : list Row :=
  filter (fun r =>
    isin (Product_Category r) category_filter &&
    isin (Gender r) gender_filter &&
    isin (Month_Name r) month_filter) df.

(** The frame [monthly_base] is aggregated from. *)
Definition base_df : list Row :=
  filter (fun r =>
    isin (Product_Category r) category_filter &&
    isin (Gender r) gender_filter) df.

(** A row of [monthly_base]. *)
Record BaseRow : Type := mkBase {
  b_Month_Period : MonthPeriod;
  b_Total_Amount : Qc;
  b_Growth_Rate : fval
}.

(** [frame['Growth_Rate'] = frame['Total Amount'].pct_change()] *)
Definition with_growth (frame : list (MonthPeriod * Qc)) : list BaseRow :=
  map (fun rg => mkBase (fst (fst rg)) (snd (fst rg)) (snd rg))
    (combine frame (pct_change (map (fun r => Fin (snd r)) frame))).

(** [frame[frame['Month_Period'] == k]] *)
Definition rows_at (frame : list BaseRow) (k : MonthPeriod) : list BaseRow :=
  filter (fun r => mp_eqb (b_Month_Period r) k) frame.

Definition monthly_base : list BaseRow :=
  with_growth (sort_values (groupby_sum Month_Period Total_Amount base_df)).

Definition monthly_sales : list (MonthPeriod * Qc) :=
  sort_values (groupby_sum Month_Period Total_Amount filtered_df).

(** [monthly_sales['Month_Label']] *)
Definition monthly_sales_labels : list string :=
  map (fun r => strftime_b_Y (fst r)) monthly_sales.

Definition total_revenue : fval :=
  nansum (map (fun r => Fin (snd r)) monthly_sales).

Definition avg_monthly_revenue : fval :=
  mean (map (fun r => Fin (snd r)) monthly_sales).

(** The five variables set by the block under [if not monthly_sales.empty]. *)
Record Forecast : Type := mkForecast {
  previous_month_revenue : fval;
  next_month_revenue : fval;
  expected_growth : fval;
  previous_month_label : string;
  next_month_label : string
}.

Definition forecast_defaults : Forecast :=
  mkForecast zero zero zero "N/A" "N/A".

Definition forecast : Forecast :=
  match iloc_last monthly_sales with
  | None => forecast_defaults
  | Some last_row =>
      let selected_month := fst last_row in
      let prev_month := minus_one_month selected_month in
      let prev_row := rows_at monthly_base prev_month in
      let curr_row := rows_at monthly_base selected_month in
      match prev_row, curr_row with
      | p :: _, c :: _ =>
          let previous := Fin (b_Total_Amount p) in
          let growth_rate := b_Growth_Rate c in
          mkForecast previous
            (if notna growth_rate then fmul previous (fadd one growth_rate)
             else zero)
            (if notna growth_rate then fmul growth_rate hundred else zero)
            (strftime_B_Y prev_month)
            (strftime_B_Y (plus_one_month selected_month))
      | _, _ => forecast_defaults
      end
  end.

(** [avg_growth_rate = monthly_base['Growth_Rate'].mean() * 100] *)
Definition avg_growth_rate : fval :=
  fmul (mean (map b_Growth_Rate monthly_base)) hundred.

(** [revenue_std = monthly_sales['Total Amount'].std()] *)
Definition revenue_std : option R := std (map snd monthly_sales).

(** ['positive' if avg_growth_rate > 0 else 'negative'] *)
Definition trend : string :=
  if fgtb avg_growth_rate zero then "positive" else "negative".

(** The values interpolated by the insights block. *)
Record Insights : Type := mkInsights {
  i_best_month : option (MonthPeriod * Qc);
  i_worst_month : option (MonthPeriod * Qc);
  i_revenue_std : option R;
  i_avg_growth_rate : fval;
  i_trend : string
}.

(** [if len(monthly_sales) >= 2: ... else: st.info("Not enough data ...")];
    [None] is the notice. *)
Definition insights : option Insights :=
  if (2 <=? List.length monthly_sales)%nat then
    Some (mkInsights
      (match monthly_sales with [] => None | x :: l => Some (idxmax_from x l) end)
      (match monthly_sales with [] => None | x :: l => Some (idxmin_from x l) end)
      revenue_std avg_growth_rate trend)
  else None.

End Run.

End Sales2.

(* ------------------------------------------------------------------ *)
(** ** Reference definitions used by the statements                    *)
(* ------------------------------------------------------------------ *)

Module Reference.
Import Calendar Num Pandas Sales2.

(** The [Month_Period] column of an aggregate. *)
Definition periods (frame : list (MonthPeriod * Qc)) : list MonthPeriod :=
  map fst frame.

(** Strictly ascending on the time line. *)
Definition ascending (ks : list MonthPeriod) : Prop :=
  StronglySorted mp_lt ks.

(** Row-by-row reading of [with_growth]: each rate is taken against the row
    just above, the first against nothing (NaN). *)
Fixpoint growth_from (prev : fval) (frame : list (MonthPeriod * Qc))
  : list BaseRow :=
  match frame with
  | [] => []
  | r :: rest =>
      mkBase (fst r) (snd r) (fsub (fdiv (Fin (snd r)) prev) one)
        :: growth_from (Fin (snd r)) rest
  end.

(** Growth rates as the specification words them:
    [(sum[i] - sum[i-1]) / sum[i-1]] for every period after the first. *)
Fixpoint later_growth_rates (prev : Qc) (sums : list Qc) : list fval :=
  match sums with
  | [] => []
  | s :: rest => fdiv (Fin (s - prev)%Qc) (Fin prev) :: later_growth_rates s rest
  end.

(** Arithmetic mean of the defined rates among those of the periods after
    the first: the first period enters neither the sum nor the count. *)
Definition mean_defined_growth (sums : list Qc) : fval :=
  match sums with
  | [] => NaN
  | s0 :: rest =>
      let defined := filter notna (later_growth_rates s0 rest) in
      fdiv (fold_left fadd defined zero)
           (Fin (qz (Z.of_nat (List.length defined))))
  end.

(** Sum of a list of reals. *)
Definition Rsum (xs : list R) : R := fold_right Rplus 0%R xs.

(** Sum of the squared deviations from the arithmetic mean. *)
Definition sq_dev_sum (xs : list R) : R :=
  let m := (Rsum xs / INR (List.length xs))%R in
  Rsum (map (fun x => ((x - m) * (x - m))%R) xs).

(** A column of finite numbers as reals. *)
Definition reals (xs : list Qc) : list R := map (fun x => Q2R (this x)) xs.

(** The inputs of the forecast formula: the display series ends at a
    period, both that period and the calendar month before it have a row
    [cr], [pr] in the base series, and the growth rate of [cr] is defined. *)
Definition forecast_inputs (display : list (MonthPeriod * Qc))
  (base : list BaseRow) (pr cr : BaseRow) : Prop :=
  exists last_row,
    iloc_last display = Some last_row /\
    In pr base /\ b_Month_Period pr = minus_one_month (fst last_row) /\
    In cr base /\ b_Month_Period cr = fst last_row /\
    notna (b_Growth_Rate cr) = true.

End Reference.

(* ------------------------------------------------------------------ *)
(** ** A small dataset                                                 *)
(* ------------------------------------------------------------------ *)

Module Sample.
Import Calendar Num Pandas Sales2.
Local Open Scope string_scope.

Definition row (y : Z) (m : month_name) (d : Z) (c g : string) (a : Z) : Row :=
  mkRow (mkDate y m d) c g (qz a).

(** Base sums for Beauty and Clothing: January 1000, February 1200,
    March 900 (the Electronics row is filtered out). *)
Definition df : list Row :=
  [ row 2023 January 5 "Beauty" "Male" 400;
    row 2023 March 2 "Beauty" "Male" 900;
    row 2023 February 11 "Electronics" "Female" 5000;
    row 2023 February 7 "Beauty" "Female" 1200;
    row 2023 January 9 "Clothing" "Male" 600 ].

Definition categories : list string := ["Beauty"; "Clothing"].
Definition genders : list string := ["Female"; "Male"].
Definition all_months : list string := ["January"; "February"; "March"].
Definition jan_feb : list string := ["January"; "February"].
Definition jan : list string := ["January"].
Definition no_month : list string := [].

(** Projection used to display a finite value. *)
Definition finite (x : fval) : option Q :=
  match x with Fin q => Some (this q) | _ => None end.

End Sample.

(** A dataset with months without revenue, and one spanning two years. *)
Module Sample2.
Import Calendar Num Pandas Sales2.
Local Open Scope string_scope.

(** Base sums: January 0, February 500, March 0, April 0. *)
Definition df_zero : list Row :=
  [ Sample.row 2023 January 3 "Beauty" "Male" 0;
    Sample.row 2023 February 14 "Beauty" "Female" 500;
    Sample.row 2023 March 8 "Clothing" "Male" 0;
    Sample.row 2023 April 21 "Beauty" "Male" 0 ].

(** Two Januaries: January 2023 (300), December 2023 (700),
    January 2024 (200). *)
Definition df_two_years : list Row :=
  [ Sample.row 2023 January 3 "Beauty" "Male" 300;
    Sample.row 2023 December 14 "Beauty" "Female" 700;
    Sample.row 2024 January 1 "Clothing" "Male" 200 ].

Definition months : list string :=
  ["January"; "February"; "March"; "April"].


End Sample2.

(* ------------------------------------------------------------------ *)
(** ** The sidebar: options and defaults of the three multiselects     *)
(* ------------------------------------------------------------------ *)

Module Sidebar.
Import Calendar Num Pandas Sales2.

(** [Series.unique()]: the distinct values in order of first appearance;
    [seen] holds the values met so far. *)
Fixpoint unique_acc (seen : list string) (xs : list string) : list string :=
  match xs with
  | [] => []
  | x :: rest =>
      if isin x seen then unique_acc seen rest
      else x :: unique_acc (x :: seen) rest
  end.

Definition unique (xs : list string) : list string := unique_acc [] xs.

(** [sorted(...)] on strings: ascending in the order of the characters'
    codes. *)
Fixpoint sorted_insert (x : string) (xs : list string) : list string :=
  match xs with
  | [] => [x]
  | y :: rest =>
      if String.leb x y then x :: xs else y :: sorted_insert x rest
  end.

Definition sorted (xs : list string) : list string :=
  fold_right sorted_insert [] xs.

(** [df.sort_values('Month_Period')] on the rows of the dataset. *)
Fixpoint sort_rows_insert (r : Row) (rows : list Row) : list Row :=
  match rows with
  | [] => [r]
  | y :: rest =>
      if mp_leb (Month_Period r) (Month_Period y) then r :: rows
      else y :: sort_rows_insert r rest
  end.

Definition sort_rows (rows : list Row) : list Row :=
  fold_right sort_rows_insert [] rows.

(** Options, and default selection, of the "Product Category" multiselect:
    [sorted(df['Product Category'].unique())] *)
Definition category_options (df : list Row) : list string :=
  sorted (unique (map Product_Category df)).

(** Options, and default selection, of the "Gender" multiselect. *)
Definition gender_options (df : list Row) : list string :=
  sorted (unique (map Gender df)).

(** Options, and default selection, of the "Month" multiselect:
    [df.sort_values('Month_Period')['Month_Name'].unique()] *)
Definition month_options (df : list Row) : list string :=
  unique (map Month_Name (sort_rows df)).

End Sidebar.

(* ------------------------------------------------------------------ *)
(** ** Further reference definitions                                   *)
(* ------------------------------------------------------------------ *)

Module Views.
Import Calendar Num Pandas Sales2.

(** The transactions of a frame that fall in period [k]. *)
Definition transactions_of (k : MonthPeriod) (frame : list Row) : list Row :=
  filter (fun r => mp_eqb (Month_Period r) k) frame.

(** The [Month_Period] and [Total Amount] columns of the base series. *)
Definition base_amounts (base : list BaseRow) : list (MonthPeriod * Qc) :=
  map (fun r => (b_Month_Period r, b_Total_Amount r)) base.

(** Whether the month filter selects the month name of a period. *)
Definition month_selected (month_filter : list string)
  (g : MonthPeriod * Qc) : bool :=
  isin (full_name (mp_month (fst g))) month_filter.

(** Datasets on which the sums of the script are exact: every amount is a
    non-negative integer and all amounts together do not exceed 2^53, so
    that no int64 sum wraps and no binary64 sum rounds. *)
Definition small_integer_amounts (df : list Row) : Prop :=
  (forall r, In r df -> exists z : Z, 0 <= z /\ Total_Amount r = qz z) /\
  (qsum (map Total_Amount df) <= qz (2 ^ 53))%Qc.

End Views.

(* ------------------------------------------------------------------ *)
(** ** The forecast arithmetic in binary64                             *)
(* ------------------------------------------------------------------ *)

(** The growth rate and the forecast of lines 89 and 117-130 with the
    machine operations of binary64, in place of the exact operations of
    [Num].  The monthly sums are those of the aggregation above, converted;
    the conversion is exact for integer sums below 2^53. *)
Module Binary64.
Import Calendar Num Pandas Sales2.
Import PrimFloat.
Local Open Scope float_scope.

Fixpoint of_pos (p : positive) : float :=
  match p with
  | xH => 1
  | xO q => 2 * of_pos q
  | xI q => 2 * of_pos q + 1
  end.

Definition of_Z (z : Z) : float :=
  match z with
  | Z0 => 0
  | Zpos p => of_pos p
  | Zneg p => - of_pos p
  end.

(** The binary64 value of a monthly sum. *)
Definition of_Qc (q : Qc) : float :=
  of_Z (Qnum (this q)) / of_pos (Qden (this q)).

(** [Series.shift(1)] *)
Definition shift1 (xs : list float) : list float :=
  firstn (List.length xs) (nan :: xs).

(** [Series.pct_change()], that is [data / data.shift(1) - 1] *)
Definition pct_change (xs : list float) : list float :=
  map (fun xy => fst xy / snd xy - 1) (combine xs (shift1 xs)).

(** A row of [monthly_base]. *)
Record BaseRow64 : Type := mkBase64 {
  Month_Period64 : MonthPeriod;
  Total_Amount64 : float;
  Growth_Rate64 : float
}.

Definition monthly_base (df : list Row)
  (category_filter gender_filter : list string) : list BaseRow64 :=
  let groups :=
    sort_values
      (groupby_sum Month_Period Total_Amount
         (base_df df category_filter gender_filter)) in
  let amounts := map (fun g => of_Qc (snd g)) groups in
  map (fun x => mkBase64 (fst (fst x)) (snd (fst x)) (snd x))
    (combine (combine (map fst groups) amounts) (pct_change amounts)).

(** [frame[frame['Month_Period'] == k]] *)
Definition rows_at (frame : list BaseRow64) (k : MonthPeriod)
  : list BaseRow64 :=
  filter (fun r => mp_eqb (Month_Period64 r) k) frame.

(** [next_month_revenue] after the block under
    [if not monthly_sales.empty] *)
Definition next_month_revenue (df : list Row)
  (category_filter gender_filter month_filter : list string) : float :=
  match iloc_last
          (monthly_sales df category_filter gender_filter month_filter) with
  | None => 0
  | Some last_row =>
      let selected_month := fst last_row in
      let prev_month := minus_one_month selected_month in
      let base := monthly_base df category_filter gender_filter in
      match rows_at base prev_month, rows_at base selected_month with
      | p :: _, c :: _ =>
          let previous := Total_Amount64 p in
          let growth_rate := Growth_Rate64 c in
          if is_nan growth_rate then 0 else previous * (1 + growth_rate)
      | _, _ => 0
      end
  end.


End Binary64.

Import Calendar Num Pandas Sales2 Reference.
Import Sidebar Views.

(* ------------------------------------------------------------------ *)
(** ** Calendar facts                                                  *)
(* ------------------------------------------------------------------ *)

Section CalendarFacts.

Lemma month_number_range (m : month_name) : 1 <= month_number m <= 12.
Proof. destruct m; simpl; lia. Qed.

Lemma month_number_inj (m n : month_name) :
  month_number m = month_number n -> m = n.
Proof. destruct m, n; simpl; intro H; try reflexivity; discriminate H. Qed.

Lemma ord_inj (a b : MonthPeriod) : ord a = ord b -> a = b.
Proof.
  destruct a as [ya ma], b as [yb mb]; unfold ord;
    cbn [mp_year mp_month]; intro H.
  pose proof (month_number_range ma). pose proof (month_number_range mb).
  assert (ya = yb) by lia. subst yb.
  assert (month_number ma = month_number mb) by lia.
  f_equal. now apply month_number_inj.
Qed.

Lemma mp_eqb_eq (a b : MonthPeriod) : mp_eqb a b = true <-> a = b.
Proof.
  unfold mp_eqb; rewrite Z.eqb_eq; split; [apply ord_inj | now intros ->].
Qed.

Lemma mp_eqb_refl (a : MonthPeriod) : mp_eqb a a = true.
Proof. now apply mp_eqb_eq. Qed.

(** The order on [ord] is the chronological one: by year, then by month. *)
Lemma mp_lt_chronological (a b : MonthPeriod) :
  mp_lt a b <->
  mp_year a < mp_year b \/
  (mp_year a = mp_year b /\
   month_number (mp_month a) < month_number (mp_month b)).
Proof.
  unfold mp_lt, ord.
  pose proof (month_number_range (mp_month a)).
  pose proof (month_number_range (mp_month b)). lia.
Qed.

Lemma ord_minus_one_month (p : MonthPeriod) :
  ord (minus_one_month p) = ord p - 1.
Proof.
  destruct p as [y m]; destruct m;
    unfold ord, minus_one_month; cbn [mp_year mp_month month_number]; lia.
Qed.

Lemma ord_plus_one_month (p : MonthPeriod) :
  ord (plus_one_month p) = ord p + 1.
Proof.
  destruct p as [y m]; destruct m;
    unfold ord, plus_one_month; cbn [mp_year mp_month month_number]; lia.
Qed.

End CalendarFacts.

(* ------------------------------------------------------------------ *)
(** ** The monthly aggregation                                         *)
(* ------------------------------------------------------------------ *)

Section AggregationFacts.

Lemma ascending_NoDup (ks : list MonthPeriod) : ascending ks -> NoDup ks.
Proof.
  induction 1 as [|k ks _ IH Hall]; constructor; [|exact IH].
  intro Hin. rewrite Forall_forall in Hall.
  specialize (Hall k Hin). unfold mp_lt in Hall. lia.
Qed.

Lemma group_add_periods_In k v groups k' :
  In k' (periods (group_add k v groups)) <-> k' = k \/ In k' (periods groups).
Proof.
  induction groups as [|[k0 v0] rest IH]; simpl.
  - intuition congruence.
  - destruct (mp_ltb k k0); simpl; [intuition congruence|].
    destruct (mp_eqb k k0) eqn:E; simpl.
    + apply mp_eqb_eq in E; subst k0. intuition congruence.
    + unfold periods in IH. rewrite IH. intuition congruence.
Qed.

Lemma group_add_ascending k v groups :
  ascending (periods groups) -> ascending (periods (group_add k v groups)).
Proof.
  unfold ascending.
  induction groups as [|[k0 v0] rest IH]; simpl; intro H.
  - repeat constructor.
  - inversion H as [|? ? Hrest Hall]; subst.
    destruct (mp_ltb k k0) eqn:Elt; simpl.
    + apply Z.ltb_lt in Elt. constructor; [exact H|].
      constructor; [exact Elt|].
      rewrite Forall_forall in *; intros x Hx.
      specialize (Hall x Hx). unfold mp_lt in *. lia.
    + destruct (mp_eqb k k0) eqn:Eeq; simpl; [exact H|].
      apply Z.ltb_ge in Elt. apply Z.eqb_neq in Eeq.
      constructor; [exact (IH Hrest)|].
      rewrite Forall_forall in *; intros x Hx.
      apply group_add_periods_In in Hx. destruct Hx as [->|Hx].
      * unfold mp_lt. lia.
      * exact (Hall x Hx).
Qed.

Section Groupby.

Context {A : Type} (key : A -> MonthPeriod) (value : A -> Qc).

Let step := fun groups (r : A) => group_add (key r) (value r) groups.

Lemma fold_group_add_ascending (frame : list A) (groups : list (MonthPeriod * Qc)) :
  ascending (periods groups) ->
  ascending (periods (fold_left step frame groups)).
Proof.
  revert groups; induction frame as [|r frame IH]; simpl; intros groups H.
  - exact H.
  - apply IH. now apply group_add_ascending.
Qed.

Lemma fold_group_add_In (frame : list A) (groups : list (MonthPeriod * Qc)) k :
  In k (periods (fold_left step frame groups)) <->
  In k (periods groups) \/ exists r, In r frame /\ key r = k.
Proof.
  revert groups; induction frame as [|r frame IH]; simpl; intros groups.
  - split; [now left | intros [H|[r [[] _]]]; exact H].
  - rewrite IH. subst step. cbv beta. rewrite group_add_periods_In. split.
    + intros [[->|H]|[r' [H1 H2]]]; eauto.
    + intros [H|[r' [[->|H1] H2]]]; eauto.
Qed.

Lemma groupby_sum_ascending (frame : list A) :
  ascending (periods (groupby_sum key value frame)).
Proof. apply fold_group_add_ascending. constructor. Qed.

Lemma groupby_sum_In (frame : list A) k :
  In k (periods (groupby_sum key value frame)) <->
  exists r, In r frame /\ key r = k.
Proof.
  unfold groupby_sum. etransitivity; [apply fold_group_add_In|].
  simpl. intuition.
Qed.

End Groupby.

Lemma sort_insert_front x l :
  Forall (mp_lt (fst x)) (periods l) -> sort_insert x l = x :: l.
Proof.
  destruct l as [|y rest]; simpl; [reflexivity|].
  intro H. inversion H as [|? ? Hy _]; subst.
  unfold mp_leb, mp_lt in *.
  destruct (Z.leb_spec (ord (fst x)) (ord (fst y))); [reflexivity|lia].
Qed.

(** Sorting a frame whose periods are already ascending changes nothing. *)
Lemma sort_values_ascending l : ascending (periods l) -> sort_values l = l.
Proof.
  induction l as [|x l IH]; intro H; [reflexivity|].
  inversion H as [|? ? Hl Hall]; subst.
  change (sort_values (x :: l)) with (sort_insert x (sort_values l)).
  rewrite (IH Hl). now apply sort_insert_front.
Qed.

Lemma aggregate_eq {A : Type} (key : A -> MonthPeriod) (value : A -> Qc) frame :
  sort_values (groupby_sum key value frame) = groupby_sum key value frame.
Proof. apply sort_values_ascending, groupby_sum_ascending. Qed.

Lemma combine_firstn_length {X Y : Type} (xs : list X) (ys : list Y) :
  combine xs (firstn (List.length xs) ys) = combine xs ys.
Proof.
  revert ys; induction xs as [|x xs IH]; intros [|y ys]; simpl;
    try reflexivity.
  now rewrite IH.
Qed.

Lemma with_growth_from (prev : fval) (frame : list (MonthPeriod * Qc)) :
  map (fun rg => mkBase (fst (fst rg)) (snd (fst rg)) (snd rg))
    (combine frame
       (map (fun xy => fsub (fdiv (fst xy) (snd xy)) one)
          (combine (map (fun r => Fin (snd r)) frame)
             (prev :: map (fun r => Fin (snd r)) frame))))
  = growth_from prev frame.
Proof.
  revert prev; induction frame as [|r rest IH]; intro prev; simpl;
    [reflexivity|].
  f_equal. apply IH.
Qed.

Lemma with_growth_eq (frame : list (MonthPeriod * Qc)) :
  with_growth frame = growth_from NaN frame.
Proof.
  unfold with_growth, pct_change, shift1.
  rewrite combine_firstn_length. apply with_growth_from.
Qed.

Lemma growth_from_periods prev frame :
  map b_Month_Period (growth_from prev frame) = periods frame.
Proof.
  revert prev; induction frame as [|r rest IH]; intro prev; simpl;
    [reflexivity|].
  f_equal. apply IH.
Qed.

Lemma growth_from_amounts prev frame :
  map b_Total_Amount (growth_from prev frame) = map snd frame.
Proof.
  revert prev; induction frame as [|r rest IH]; intro prev; simpl;
    [reflexivity|].
  f_equal. apply IH.
Qed.

Lemma growth_from_length prev frame :
  List.length (growth_from prev frame) = List.length frame.
Proof.
  rewrite <- (length_map b_Month_Period), growth_from_periods.
  apply length_map.
Qed.

Variable df : list Row.
Variables category_filter gender_filter month_filter : list string.

Lemma monthly_base_eq :
  monthly_base df category_filter gender_filter =
  growth_from NaN
    (groupby_sum Month_Period Total_Amount
       (base_df df category_filter gender_filter)).
Proof. unfold monthly_base. now rewrite aggregate_eq, with_growth_eq. Qed.

Lemma monthly_sales_eq :
  monthly_sales df category_filter gender_filter month_filter =
  groupby_sum Month_Period Total_Amount
    (filtered_df df category_filter gender_filter month_filter).
Proof. unfold monthly_sales. apply aggregate_eq. Qed.

Lemma monthly_base_periods :
  map b_Month_Period (monthly_base df category_filter gender_filter) =
  periods (groupby_sum Month_Period Total_Amount
             (base_df df category_filter gender_filter)).
Proof. rewrite monthly_base_eq. apply growth_from_periods. Qed.

Lemma monthly_base_ascending :
  ascending (map b_Month_Period (monthly_base df category_filter gender_filter)).
Proof. rewrite monthly_base_periods. apply groupby_sum_ascending. Qed.

Lemma monthly_sales_ascending :
  ascending
    (periods (monthly_sales df category_filter gender_filter month_filter)).
Proof. rewrite monthly_sales_eq. apply groupby_sum_ascending. Qed.

Lemma filtered_df_base r :
  In r (filtered_df df category_filter gender_filter month_filter) ->
  In r (base_df df category_filter gender_filter).
Proof.
  unfold filtered_df, base_df. rewrite !filter_In.
  intros [H1 H2]. split; [exact H1|].
  apply andb_true_iff in H2. tauto.
Qed.

(** Every period of the display series is a period of the base series. *)
Lemma monthly_sales_in_base k :
  In k (periods (monthly_sales df category_filter gender_filter month_filter)) ->
  In k (map b_Month_Period (monthly_base df category_filter gender_filter)).
Proof.
  rewrite monthly_sales_eq, monthly_base_periods, !groupby_sum_In.
  intros [r [H1 H2]]. exists r. split; [|exact H2].
  now apply filtered_df_base.
Qed.

End AggregationFacts.

(* ------------------------------------------------------------------ *)
(** ** Row lookups in the base series                                  *)
(* ------------------------------------------------------------------ *)

Section LookupFacts.

Lemma iloc_last_In {A : Type} (frame : list A) (x : A) :
  iloc_last frame = Some x -> In x frame.
Proof.
  induction frame as [|a [|b rest] IH]; simpl; intro H.
  - discriminate H.
  - left. congruence.
  - right. exact (IH H).
Qed.

Lemma iloc_last_None {A : Type} (frame : list A) :
  iloc_last frame = None <-> frame = [].
Proof.
  split; [|now intros ->].
  induction frame as [|a [|b rest] IH]; simpl; intro H;
    [reflexivity | discriminate H | specialize (IH H); discriminate IH].
Qed.

(** The last row of an ascending frame carries its latest period. *)
Lemma iloc_last_latest (frame : list (MonthPeriod * Qc)) x :
  ascending (periods frame) -> iloc_last frame = Some x ->
  forall k, In k (periods frame) -> ord k <= ord (fst x).
Proof.
  induction frame as [|a [|b rest] IH]; intros Hasc H k Hk.
  - discriminate H.
  - simpl in H, Hk. destruct Hk as [<-|[]]. injection H as <-. lia.
  - inversion Hasc as [|? ? Hrest Hall]; subst.
    change (iloc_last (b :: rest) = Some x) in H.
    destruct Hk as [<-|Hk]; [|exact (IH Hrest H k Hk)].
    rewrite Forall_forall in Hall.
    apply iloc_last_In in H.
    assert (Hx : In (fst x) (periods (b :: rest))) by (apply in_map, H).
    specialize (Hall _ Hx). unfold mp_lt in Hall. lia.
Qed.

Lemma rows_at_In frame k r :
  In r (rows_at frame k) <-> In r frame /\ b_Month_Period r = k.
Proof.
  unfold rows_at. rewrite filter_In, mp_eqb_eq. reflexivity.
Qed.

Lemma rows_at_absent frame k :
  ~ In k (map b_Month_Period frame) -> rows_at frame k = [].
Proof.
  intro H. destruct (rows_at frame k) as [|r rs] eqn:E; [reflexivity|].
  exfalso. apply H.
  assert (Hr : In r (rows_at frame k)) by (rewrite E; now left).
  apply rows_at_In in Hr. destruct Hr as [Hr <-]. now apply in_map.
Qed.

(** Periods are not repeated, so a lookup finds exactly the row of its
    period. *)
Lemma rows_at_unique frame r :
  NoDup (map b_Month_Period frame) -> In r frame ->
  rows_at frame (b_Month_Period r) = [r].
Proof.
  induction frame as [|a rest IH]; simpl; intros Hnd Hin; [contradiction|].
  inversion Hnd as [|? ? Ha Hrest]; subst.
  destruct Hin as [->|Hin].
  - rewrite mp_eqb_refl. f_equal. now apply rows_at_absent.
  - destruct (mp_eqb (b_Month_Period a) (b_Month_Period r)) eqn:E.
    + apply mp_eqb_eq in E. exfalso. apply Ha. rewrite E. now apply in_map.
    + exact (IH Hrest Hin).
Qed.

Variable df : list Row.
Variables category_filter gender_filter month_filter : list string.

Local Notation "'mb'" := (monthly_base df category_filter gender_filter).
Local Notation "'ms'" :=
  (monthly_sales df category_filter gender_filter month_filter).
Local Notation "'f'" :=
  (forecast df category_filter gender_filter month_filter).

Lemma base_lookup r :
  In r mb -> rows_at mb (b_Month_Period r) = [r].
Proof.
  apply rows_at_unique, ascending_NoDup, monthly_base_ascending.
Qed.

Lemma forecast_empty : ms = [] -> f = forecast_defaults.
Proof.
  intro H. unfold forecast. now rewrite H.
Qed.

Lemma forecast_found last_row pr cr :
  iloc_last ms = Some last_row ->
  In pr mb -> b_Month_Period pr = minus_one_month (fst last_row) ->
  In cr mb -> b_Month_Period cr = fst last_row ->
  f = mkForecast (Fin (b_Total_Amount pr))
        (if notna (b_Growth_Rate cr)
         then fmul (Fin (b_Total_Amount pr)) (fadd one (b_Growth_Rate cr))
         else zero)
        (if notna (b_Growth_Rate cr)
         then fmul (b_Growth_Rate cr) hundred else zero)
        (strftime_B_Y (minus_one_month (fst last_row)))
        (strftime_B_Y (plus_one_month (fst last_row))).
Proof.
  intros Hlast Hpr Hkp Hcr Hkc. unfold forecast.
  rewrite Hlast. cbv zeta.
  rewrite <- Hkp, (base_lookup pr Hpr), Hkp.
  rewrite <- Hkc at 1. rewrite (base_lookup cr Hcr). reflexivity.
Qed.

Lemma forecast_prev_missing last_row :
  iloc_last ms = Some last_row ->
  ~ In (minus_one_month (fst last_row)) (map b_Month_Period mb) ->
  f = forecast_defaults.
Proof.
  intros Hlast Habs. unfold forecast.
  rewrite Hlast. cbv zeta. now rewrite (rows_at_absent _ _ Habs).
Qed.

End LookupFacts.

(* ------------------------------------------------------------------ *)
(** ** Display series against base series                              *)
(* ------------------------------------------------------------------ *)

Section DisplayAndBase.

Lemma isin_In x values : isin x values = true <-> In x values.
Proof.
  unfold isin. rewrite existsb_exists. split.
  - intros [y [Hy E]]. apply String.eqb_eq in E. now subst y.
  - intro H. exists x. split; [exact H | apply String.eqb_refl].
Qed.

Variable df : list Row.
Variables category_filter gender_filter : list string.

Local Notation "'display' m" :=
  (monthly_sales df category_filter gender_filter m) (at level 10).
Local Notation "'base'" := (monthly_base df category_filter gender_filter).

(** The forecast reads the display series through its last period only. *)
Lemma forecast_same_last (m1 m2 : list string) :
  option_map fst (iloc_last (display m1)) =
  option_map fst (iloc_last (display m2)) ->
  forecast df category_filter gender_filter m1 =
  forecast df category_filter gender_filter m2.
Proof.
  unfold forecast.
  destruct (iloc_last (display m1)) as [[k1 v1]|];
    destruct (iloc_last (display m2)) as [[k2 v2]|]; simpl; intro H;
    try discriminate H; [|reflexivity].
  injection H as ->. reflexivity.
Qed.

Lemma filtered_df_narrow (m1 m2 : list string) r :
  incl m1 m2 ->
  In r (filtered_df df category_filter gender_filter m1) ->
  In r (filtered_df df category_filter gender_filter m2).
Proof.
  unfold filtered_df. rewrite !filter_In, !andb_true_iff, !isin_In.
  intros Hincl [H1 [H2 H3]]. split; [exact H1|]. split; [exact H2|].
  now apply Hincl.
Qed.

(** A narrower month filter that still selects the month of the last
    displayed period leaves that period last. *)
Lemma narrowed_same_last (m1 m2 : list string) last_row :
  incl m1 m2 ->
  iloc_last (display m2) = Some last_row ->
  isin (full_name (mp_month (fst last_row))) m1 = true ->
  option_map fst (iloc_last (display m1)) = Some (fst last_row).
Proof.
  intros Hincl Hlast Hsel.
  assert (Hin2 : In (fst last_row) (periods (display m2)))
    by (apply in_map, iloc_last_In, Hlast).
  assert (Hin1 : In (fst last_row) (periods (display m1))).
  { rewrite monthly_sales_eq, groupby_sum_In in *.
    destruct Hin2 as [r [Hr Hk]]. exists r. split; [|exact Hk].
    unfold filtered_df in *. rewrite filter_In in *.
    destruct Hr as [Hr Hf]. split; [exact Hr|].
    rewrite !andb_true_iff in *. split; [tauto|].
    unfold Month_Name. now rewrite Hk. }
  destruct (iloc_last (display m1)) as [last1|] eqn:E1.
  - simpl. f_equal. apply ord_inj.
    pose proof (iloc_last_latest _ _
      (monthly_sales_ascending df category_filter gender_filter m1) E1
      _ Hin1) as Hle1.
    assert (Hin : In (fst last1) (periods (display m2))).
    { apply iloc_last_In in E1. apply (in_map fst) in E1.
      fold (periods (display m1)) in E1.
      rewrite monthly_sales_eq, groupby_sum_In in *.
      destruct E1 as [r [Hr Hk]]. exists r. split; [|exact Hk].
      now apply (filtered_df_narrow m1 m2). }
    pose proof (iloc_last_latest _ _
      (monthly_sales_ascending df category_filter gender_filter m2) Hlast
      _ Hin) as Hle2.
    lia.
  - apply iloc_last_None in E1. rewrite E1 in Hin1. destruct Hin1.
Qed.

End DisplayAndBase.

(* ------------------------------------------------------------------ *)
(** ** Properties of the pipeline                                      *)
(* ------------------------------------------------------------------ *)

(** Closes a goal [Fin a = Fin b] between evaluated rationals. *)
Ltac fin_eq := vm_compute; f_equal; apply Qc_is_canon; reflexivity.

(** Closes a goal [x <> y] between values that evaluate differently. *)
Ltac fin_neq :=
  let H := fresh in intro H; vm_compute in H; discriminate H.

(** C6. Whatever the transactions and the filter predicate, the periods of
    the monthly aggregation ([groupby] / [sum] / [sort_values]) are strictly
    ascending on the time line and none is repeated; this holds in
    particular of [monthly_base] and of [monthly_sales]. *)
Theorem aggregate_periods_ascending
  (df : list Row) (keep : Row -> bool)
  (category_filter gender_filter month_filter : list string) :
  let out :=
    sort_values (groupby_sum Month_Period Total_Amount (filter keep df)) in
  let base :=
    map b_Month_Period (monthly_base df category_filter gender_filter) in
  let display :=
    periods (monthly_sales df category_filter gender_filter month_filter) in
  (ascending (periods out) /\ NoDup (periods out)) /\
  (ascending base /\ NoDup base) /\
  (ascending display /\ NoDup display).
Proof.
  cbv zeta.
  assert (H1 : ascending (periods (sort_values
            (groupby_sum Month_Period Total_Amount (filter keep df)))))
    by (rewrite aggregate_eq; apply groupby_sum_ascending).
  pose proof (monthly_base_ascending df category_filter gender_filter) as H2.
  pose proof (monthly_sales_ascending df category_filter gender_filter
                month_filter) as H3.
  repeat split; auto using ascending_NoDup.
Qed.

(** C10. When the display series is not empty, its last period (the
    selected month) has a row in the base series: the lookup [curr_row]
    returns exactly that row, never the empty frame. *)
Theorem selected_month_in_base
  (df : list Row) (category_filter gender_filter month_filter : list string) :
  monthly_sales df category_filter gender_filter month_filter <> [] ->
  exists last_row cr,
    iloc_last (monthly_sales df category_filter gender_filter month_filter)
      = Some last_row /\
    rows_at (monthly_base df category_filter gender_filter) (fst last_row)
      = [cr] /\
    b_Month_Period cr = fst last_row.
Proof.
  intro Hne.
  destruct (iloc_last (monthly_sales df category_filter gender_filter
                         month_filter)) as [last_row|] eqn:E;
    [|apply iloc_last_None in E; contradiction].
  assert (Hin : In (fst last_row)
                  (map b_Month_Period
                     (monthly_base df category_filter gender_filter))).
  { apply (monthly_sales_in_base df category_filter gender_filter month_filter).
    apply in_map, iloc_last_In, E. }
  apply in_map_iff in Hin. destruct Hin as [cr [Hk Hcr]].
  exists last_row, cr. split; [reflexivity|]. split; [|exact Hk].
  rewrite <- Hk. now apply base_lookup.
Qed.

Lemma selected_month_in_base_witness :
  monthly_sales Sample.df Sample.categories Sample.genders Sample.all_months
    <> [] /\
  exists last_row cr,
    iloc_last (monthly_sales Sample.df Sample.categories Sample.genders
                 Sample.all_months) = Some last_row /\
    rows_at (monthly_base Sample.df Sample.categories Sample.genders)
      (fst last_row) = [cr] /\
    b_Month_Period cr = fst last_row.
Proof.
  assert (H : monthly_sales Sample.df Sample.categories Sample.genders
                Sample.all_months <> [])
    by (vm_compute; discriminate).
  split; [exact H|].
  exact (selected_month_in_base Sample.df Sample.categories Sample.genders
           Sample.all_months H).
Defined.

(** The lookup of the previous month, on the other hand, can come back
    empty: with only January displayed, December is not in the base. *)
Example previous_month_lookup_can_be_empty :
  exists last_row,
    iloc_last (monthly_sales Sample.df Sample.categories Sample.genders
                 Sample.jan) = Some last_row /\
    rows_at (monthly_base Sample.df Sample.categories Sample.genders)
      (minus_one_month (fst last_row)) = [].
Proof. eexists. split; vm_compute; reflexivity. Qed.

(** C4. When the display series is not empty but the calendar month before
    the selected month has no row in the base series, the forecast block
    leaves its five variables at their defaults: the three amounts are 0
    and both labels are "N/A". *)
Theorem missing_previous_month_defaults
  (df : list Row) (category_filter gender_filter month_filter : list string)
  (last_row : MonthPeriod * Qc) :
  iloc_last (monthly_sales df category_filter gender_filter month_filter)
    = Some last_row ->
  ~ In (minus_one_month (fst last_row))
      (map b_Month_Period (monthly_base df category_filter gender_filter)) ->
  let f := forecast df category_filter gender_filter month_filter in
  previous_month_revenue f = zero /\
  next_month_revenue f = zero /\
  expected_growth f = zero /\
  previous_month_label f = "N/A"%string /\
  next_month_label f = "N/A"%string.
Proof.
  intros Hlast Habs f. subst f.
  rewrite (forecast_prev_missing _ _ _ _ _ Hlast Habs).
  repeat split.
Qed.

Lemma missing_previous_month_defaults_witness :
  let last_row := (mkPeriod 2023 January, qz 1000) in
  let f := forecast Sample.df Sample.categories Sample.genders Sample.jan in
  iloc_last (monthly_sales Sample.df Sample.categories Sample.genders
               Sample.jan) = Some last_row /\
  ~ In (minus_one_month (fst last_row))
      (map b_Month_Period
         (monthly_base Sample.df Sample.categories Sample.genders)) /\
  previous_month_revenue f = zero /\
  next_month_revenue f = zero /\
  expected_growth f = zero /\
  previous_month_label f = "N/A"%string /\
  next_month_label f = "N/A"%string.
Proof.
  cbv zeta.
  assert (H1 : iloc_last (monthly_sales Sample.df Sample.categories
                            Sample.genders Sample.jan)
               = Some (mkPeriod 2023 January, qz 1000))
    by (vm_compute; reflexivity).
  assert (H2 : ~ In (minus_one_month (fst (mkPeriod 2023 January, qz 1000)))
                 (map b_Month_Period
                    (monthly_base Sample.df Sample.categories Sample.genders)))
    by (vm_compute; intros [H|[H|[H|[]]]]; discriminate H).
  split; [exact H1|]. split; [exact H2|].
  exact (missing_previous_month_defaults Sample.df Sample.categories
           Sample.genders Sample.jan _ H1 H2).
Defined.

(** C3. When no transaction passes the three filters, the display series is
    empty; [total_revenue] is 0 and both labels stay "N/A", but
    [avg_monthly_revenue], the mean of an empty column, is NaN: the script
    has no guard on it. *)
Theorem empty_display_kpis
  (df : list Row) (category_filter gender_filter month_filter : list string) :
  filtered_df df category_filter gender_filter month_filter = [] ->
  monthly_sales df category_filter gender_filter month_filter = [] /\
  total_revenue df category_filter gender_filter month_filter = zero /\
  avg_monthly_revenue df category_filter gender_filter month_filter = NaN /\
  previous_month_label
    (forecast df category_filter gender_filter month_filter) = "N/A"%string /\
  next_month_label
    (forecast df category_filter gender_filter month_filter) = "N/A"%string.
Proof.
  intro H.
  assert (E : monthly_sales df category_filter gender_filter month_filter = [])
    by (unfold monthly_sales; now rewrite H).
  split; [exact E|].
  unfold total_revenue, avg_monthly_revenue.
  rewrite (forecast_empty _ _ _ _ E), E.
  repeat split.
Qed.

Lemma empty_display_kpis_witness :
  filtered_df Sample.df Sample.categories Sample.genders Sample.no_month
    = [] /\
  avg_monthly_revenue Sample.df Sample.categories Sample.genders
    Sample.no_month = NaN.
Proof.
  assert (H : filtered_df Sample.df Sample.categories Sample.genders
                Sample.no_month = []) by reflexivity.
  split; [exact H|].
  exact (proj1 (proj2 (proj2
    (empty_display_kpis Sample.df Sample.categories Sample.genders
       Sample.no_month H)))).
Defined.

(** C2. If the display series is not empty, the selected month and the
    calendar month before it both have a row in the base series, and the
    growth rate of the selected month's row is defined, then
    [next_month_revenue] is the previous month's base sum times one plus
    that growth rate, and [expected_growth] is that growth rate times 100;
    in every other case both are left at 0. *)
Theorem forecast_formula
  (df : list Row) (category_filter gender_filter month_filter : list string) :
  let display := monthly_sales df category_filter gender_filter month_filter in
  let base := monthly_base df category_filter gender_filter in
  let f := forecast df category_filter gender_filter month_filter in
  (forall pr cr,
     forecast_inputs display base pr cr ->
     previous_month_revenue f = Fin (b_Total_Amount pr) /\
     next_month_revenue f =
       fmul (Fin (b_Total_Amount pr)) (fadd one (b_Growth_Rate cr)) /\
     expected_growth f = fmul (b_Growth_Rate cr) hundred) /\
  ((~ exists pr cr, forecast_inputs display base pr cr) ->
     next_month_revenue f = zero /\ expected_growth f = zero).
Proof.
  cbv zeta. split.
  - intros pr cr [last_row [Hlast [Hpr [Hkp [Hcr [Hkc Hna]]]]]].
    rewrite (forecast_found _ _ _ _ _ _ _ Hlast Hpr Hkp Hcr Hkc).
    cbn [previous_month_revenue next_month_revenue expected_growth].
    rewrite Hna. repeat split.
  - intro Hno. unfold forecast.
    destruct (iloc_last (monthly_sales df category_filter gender_filter
                           month_filter)) as [last_row|] eqn:El;
      [|split; reflexivity].
    cbv zeta.
    destruct (rows_at (monthly_base df category_filter gender_filter)
                (minus_one_month (fst last_row))) as [|p ps] eqn:Ep;
      [split; reflexivity|].
    destruct (rows_at (monthly_base df category_filter gender_filter)
                (fst last_row)) as [|c cs] eqn:Ec;
      [split; reflexivity|].
    cbn [next_month_revenue expected_growth].
    destruct (notna (b_Growth_Rate c)) eqn:En; [|split; reflexivity].
    exfalso. apply Hno. exists p, c, last_row.
    assert (Hp : In p (rows_at (monthly_base df category_filter gender_filter)
                         (minus_one_month (fst last_row))))
      by (rewrite Ep; now left).
    assert (Hc : In c (rows_at (monthly_base df category_filter gender_filter)
                         (fst last_row)))
      by (rewrite Ec; now left).
    apply rows_at_In in Hp, Hc. tauto.
Qed.

Lemma forecast_formula_witness :
  let base := monthly_base Sample.df Sample.categories Sample.genders in
  let display :=
    monthly_sales Sample.df Sample.categories Sample.genders
      Sample.all_months in
  let f :=
    forecast Sample.df Sample.categories Sample.genders Sample.all_months in
  let pr := nth 1 base (mkBase (mkPeriod 0 January) (qz 0) NaN) in
  let cr := nth 2 base (mkBase (mkPeriod 0 January) (qz 0) NaN) in
  let display' :=
    monthly_sales Sample.df Sample.categories Sample.genders Sample.jan in
  let f' := forecast Sample.df Sample.categories Sample.genders Sample.jan in
  (forecast_inputs display base pr cr /\
   next_month_revenue f =
     fmul (Fin (b_Total_Amount pr)) (fadd one (b_Growth_Rate cr)) /\
   expected_growth f = fmul (b_Growth_Rate cr) hundred /\
   Sample.finite (next_month_revenue f) = Some (900 # 1)%Q /\
   Sample.finite (expected_growth f) = Some (-25 # 1)%Q) /\
  ((~ exists pr cr, forecast_inputs display' base pr cr) /\
   next_month_revenue f' = zero /\ expected_growth f' = zero).
Proof.
  cbv zeta. split.
  - match goal with |- ?A /\ _ => assert (H : A) end.
    { exists (mkPeriod 2023 March, qz 900).
      repeat split; try (vm_compute; reflexivity).
      - vm_compute. right. left. reflexivity.
      - vm_compute. right. right. left. reflexivity. }
    split; [exact H|].
    pose proof (proj1 (forecast_formula Sample.df Sample.categories
                         Sample.genders Sample.all_months) _ _ H)
      as [_ [H1 H2]].
    split; [exact H1|]. split; [exact H2|].
    split; vm_compute; reflexivity.
  - match goal with |- ?A /\ _ => assert (H : A) end.
    { intros [pr [cr [last_row [Hl [Hp [Hk _]]]]]].
      vm_compute in Hl. injection Hl as <-.
      vm_compute in Hp.
      destruct Hp as [<-|[<-|[<-|[]]]]; vm_compute in Hk; discriminate Hk. }
    split; [exact H|].
    exact (proj2 (forecast_formula Sample.df Sample.categories
                    Sample.genders Sample.jan) H).
Defined.

(** C1, as stated, fails: narrowing the month filter from all three months
    to January and February moves the selected month from March to
    February, and with it the expected growth (from -25 to 20) and the next
    month revenue (from 900 to 1200). *)
Lemma month_filter_changes_forecast :
  let wide :=
    forecast Sample.df Sample.categories Sample.genders Sample.all_months in
  let narrow :=
    forecast Sample.df Sample.categories Sample.genders Sample.jan_feb in
  incl Sample.jan_feb Sample.all_months /\
  incl
    (periods (monthly_sales Sample.df Sample.categories Sample.genders
                Sample.jan_feb))
    (periods (monthly_sales Sample.df Sample.categories Sample.genders
                Sample.all_months)) /\
  expected_growth wide = Fin (qz (-25)) /\
  expected_growth narrow = Fin (qz 20) /\
  next_month_revenue wide = Fin (qz 900) /\
  next_month_revenue narrow = Fin (qz 1200) /\
  expected_growth narrow <> expected_growth wide /\
  next_month_revenue narrow <> next_month_revenue wide.
Proof.
  cbv zeta.
  split; [intros x [<-|[<-|[]]]; simpl; tauto|].
  split; [vm_compute; intros x [<-|[<-|[]]]; simpl; tauto|].
  repeat split; try fin_eq; fin_neq.
Qed.

(** C1, amended. With the dataset and the category and gender filters
    fixed, narrowing the month filter changes neither [expected_growth]
    nor [next_month_revenue] as long as the narrower filter still contains
    the month name of the last period of the wider display series. *)
Theorem narrowed_month_filter_keeps_forecast
  (df : list Row) (category_filter gender_filter : list string)
  (narrow wide : list string) (last_row : MonthPeriod * Qc) :
  incl narrow wide ->
  iloc_last (monthly_sales df category_filter gender_filter wide)
    = Some last_row ->
  isin (full_name (mp_month (fst last_row))) narrow = true ->
  expected_growth (forecast df category_filter gender_filter narrow) =
  expected_growth (forecast df category_filter gender_filter wide) /\
  next_month_revenue (forecast df category_filter gender_filter narrow) =
  next_month_revenue (forecast df category_filter gender_filter wide).
Proof.
  intros Hincl Hlast Hsel.
  rewrite (forecast_same_last df category_filter gender_filter narrow wide).
  - split; reflexivity.
  - rewrite (narrowed_same_last _ _ _ _ _ _ Hincl Hlast Hsel), Hlast.
    reflexivity.
Qed.

Lemma narrowed_month_filter_keeps_forecast_witness :
  let narrow := ["February"; "March"]%string in
  let last_row := (mkPeriod 2023 March, qz 900) in
  incl narrow Sample.all_months /\
  iloc_last (monthly_sales Sample.df Sample.categories Sample.genders
               Sample.all_months) = Some last_row /\
  isin (full_name (mp_month (fst last_row))) narrow = true /\
  expected_growth
    (forecast Sample.df Sample.categories Sample.genders narrow) =
  expected_growth
    (forecast Sample.df Sample.categories Sample.genders Sample.all_months) /\
  next_month_revenue
    (forecast Sample.df Sample.categories Sample.genders narrow) =
  next_month_revenue
    (forecast Sample.df Sample.categories Sample.genders Sample.all_months).
Proof.
  cbv zeta.
  assert (H1 : incl ["February"; "March"]%string Sample.all_months)
    by (intros x [<-|[<-|[]]]; simpl; tauto).
  assert (H2 : iloc_last (monthly_sales Sample.df Sample.categories
                            Sample.genders Sample.all_months)
               = Some (mkPeriod 2023 March, qz 900))
    by (vm_compute; reflexivity).
  assert (H3 : isin (full_name (mp_month (fst (mkPeriod 2023 March, qz 900))))
                 ["February"; "March"]%string = true)
    by reflexivity.
  split; [exact H1|]. split; [exact H2|]. split; [exact H3|].
  exact (narrowed_month_filter_keeps_forecast Sample.df Sample.categories
           Sample.genders _ _ _ H1 H2 H3).
Defined.

(* ------------------------------------------------------------------ *)
(** ** Growth rates                                                    *)
(* ------------------------------------------------------------------ *)

Section GrowthFacts.

Lemma growth_from_In prev frame r :
  In r (growth_from prev frame) -> In (b_Month_Period r) (periods frame).
Proof.
  intro H. rewrite <- (growth_from_periods prev). now apply in_map.
Qed.

(** In an ascending frame, the row of a month stands just below the row of
    the calendar month before it, so its rate is taken against that row. *)
Lemma growth_against_previous frame prev pr cr :
  ascending (periods frame) ->
  In pr (growth_from prev frame) -> In cr (growth_from prev frame) ->
  ord (b_Month_Period pr) + 1 = ord (b_Month_Period cr) ->
  b_Growth_Rate cr =
    fsub (fdiv (Fin (b_Total_Amount cr)) (Fin (b_Total_Amount pr))) one.
Proof.
  revert prev; induction frame as [|r rest IH]; intros prev Hasc Hpr Hcr Hord;
    [destruct Hpr|].
  inversion Hasc as [|? ? Hrest Hall]; subst.
  rewrite Forall_forall in Hall. unfold mp_lt in Hall.
  simpl in Hpr, Hcr.
  destruct Hcr as [<-|Hcr].
  - exfalso. destruct Hpr as [<-|Hpr]; simpl in Hord; [lia|].
    apply growth_from_In in Hpr. specialize (Hall _ Hpr). lia.
  - destruct Hpr as [<-|Hpr]; [|exact (IH _ Hrest Hpr Hcr Hord)].
    simpl in Hord |- *.
    destruct rest as [|r2 rest2]; [destruct Hcr|].
    simpl in Hcr. destruct Hcr as [<-|Hcr]; [reflexivity|].
    exfalso. apply growth_from_In in Hcr.
    inversion Hrest as [|? ? _ Hall2]; subst.
    rewrite Forall_forall in Hall2. unfold mp_lt in Hall2.
    specialize (Hall2 _ Hcr).
    specialize (Hall (fst r2) (or_introl eq_refl)). lia.
Qed.

Lemma fdiv_finite (a b : Qc) :
  b <> qz 0 -> fdiv (Fin a) (Fin b) = Fin (a / b)%Qc.
Proof.
  intro Hb. unfold fdiv.
  destruct (Qc_eq_bool b (qz 0)) eqn:E; [|reflexivity].
  apply Qc_eq_bool_correct in E. contradiction.
Qed.

(** [s / p - 1], as [pct_change] computes it, against [(s - p) / p]. *)
Lemma pct_change_rate (s p : Qc) :
  fsub (fdiv (Fin s) (Fin p)) one = fdiv (Fin (s - p)%Qc) (Fin p).
Proof.
  unfold fdiv. destruct (Qc_eq_bool p (qz 0)) eqn:E.
  - apply Qc_eq_bool_correct in E. subst p.
    replace (s - qz 0)%Qc with s by (change (qz 0) with 0%Qc; ring).
    destruct (Qccompare s (qz 0)); reflexivity.
  - unfold fsub, one, fneg, fadd. f_equal.
    assert (Hp : p <> 0%Qc).
    { intro Hp. subst p. vm_compute in E. discriminate E. }
    change (qz 1) with 1%Qc. field. exact Hp.
Qed.

Lemma growth_from_rates (s0 : Qc) frame :
  map b_Growth_Rate (growth_from (Fin s0) frame) =
  later_growth_rates s0 (map snd frame).
Proof.
  revert s0; induction frame as [|r rest IH]; intro s0;
    cbn [growth_from map later_growth_rates b_Growth_Rate];
    [reflexivity|].
  now rewrite pct_change_rate, IH.
Qed.

Lemma mean_skips_leading_NaN (xs : list fval) :
  mean (NaN :: xs) = mean xs.
Proof. reflexivity. Qed.

End GrowthFacts.




Section MeanFacts.

Lemma later_growth_rates_defined (s0 : Qc) (rest : list Qc) :
  Forall (fun s => s <> qz 0) (s0 :: rest) ->
  filter notna (later_growth_rates s0 rest) = later_growth_rates s0 rest /\
  List.length (later_growth_rates s0 rest) = List.length rest.
Proof.
  revert s0; induction rest as [|s rest IH]; intros s0 H;
    [split; reflexivity|].
  inversion H as [|? ? H0 Hrest]; subst.
  destruct (IH s Hrest) as [IH1 IH2].
  cbn [later_growth_rates]. rewrite (fdiv_finite _ _ H0).
  cbn [filter notna List.length]. now rewrite IH1, IH2.
Qed.

End MeanFacts.

(** C5, as stated, fails by the unit: on the base sums 1000, 1200, 900 the
    mean of the two defined rates (0.20 and -0.25) is -0.025, while
    [avg_growth_rate] is -2.5, that mean times 100. *)
Lemma avg_growth_rate_is_percentage :
  let base := monthly_base Sample.df Sample.categories Sample.genders in
  (2 <= List.length base)%nat /\
  map b_Total_Amount base = [qz 1000; qz 1200; qz 900] /\
  map Sample.finite (map b_Growth_Rate base)
    = [None; Some (1 # 5)%Q; Some (-1 # 4)%Q] /\
  mean_defined_growth (map b_Total_Amount base) = Fin (Q2Qc (-1 # 40)) /\
  avg_growth_rate Sample.df Sample.categories Sample.genders
    = Fin (Q2Qc (-5 # 2)) /\
  avg_growth_rate Sample.df Sample.categories Sample.genders
    <> mean_defined_growth (map b_Total_Amount base).
Proof.
  cbv zeta.
  split; [vm_compute; lia|].
  split; [vm_compute; reflexivity|].
  split; [vm_compute; reflexivity|].
  repeat split; try fin_eq; fin_neq.
Qed.

(** C5, amended. For a base series of at least two periods,
    [avg_growth_rate] is 100 times the arithmetic mean of the defined growth
    rates of the periods after the first: the rate of the first period is
    NaN and enters neither the sum nor the count of that mean (with no zero
    sum, every later rate is defined and the count is the number of periods
    less one). *)
Theorem avg_growth_rate_mean_defined
  (df : list Row) (category_filter gender_filter : list string) :
  (2 <= List.length (monthly_base df category_filter gender_filter))%nat ->
  exists s0 rest,
    map b_Total_Amount (monthly_base df category_filter gender_filter)
      = s0 :: rest /\
    map b_Growth_Rate (monthly_base df category_filter gender_filter)
      = NaN :: later_growth_rates s0 rest /\
    avg_growth_rate df category_filter gender_filter
      = fmul (mean_defined_growth (s0 :: rest)) hundred /\
    (Forall (fun s => s <> qz 0) (s0 :: rest) ->
     mean_defined_growth (s0 :: rest)
       = fdiv (fold_left fadd (later_growth_rates s0 rest) zero)
              (Fin (qz (Z.of_nat (List.length rest))))).
Proof.
  unfold avg_growth_rate. rewrite monthly_base_eq.
  destruct (groupby_sum Month_Period Total_Amount
              (base_df df category_filter gender_filter)) as [|r0 groups];
    [simpl; lia|].
  intros _. exists (snd r0), (map snd groups).
  cbn [growth_from map b_Total_Amount b_Growth_Rate].
  rewrite growth_from_amounts, growth_from_rates.
  change (fsub (fdiv (Fin (snd r0)) NaN) one) with NaN.
  split; [reflexivity|]. split; [reflexivity|].
  split; [reflexivity|].
  intro Hnz. unfold mean_defined_growth.
  destruct (later_growth_rates_defined _ _ Hnz) as [-> ->]. reflexivity.
Qed.

Lemma avg_growth_rate_mean_defined_witness :
  (2 <= List.length
          (monthly_base Sample.df Sample.categories Sample.genders))%nat /\
  exists s0 rest,
    map b_Total_Amount
      (monthly_base Sample.df Sample.categories Sample.genders) = s0 :: rest /\
    map b_Growth_Rate
      (monthly_base Sample.df Sample.categories Sample.genders)
      = NaN :: later_growth_rates s0 rest /\
    avg_growth_rate Sample.df Sample.categories Sample.genders
      = fmul (mean_defined_growth (s0 :: rest)) hundred /\
    (Forall (fun s => s <> qz 0) (s0 :: rest) ->
     mean_defined_growth (s0 :: rest)
       = fdiv (fold_left fadd (later_growth_rates s0 rest) zero)
              (Fin (qz (Z.of_nat (List.length rest))))).
Proof.
  assert (H : (2 <= List.length
                 (monthly_base Sample.df Sample.categories Sample.genders))%nat)
    by (vm_compute; lia).
  split; [exact H|].
  exact (avg_growth_rate_mean_defined Sample.df Sample.categories
           Sample.genders H).
Defined.

Lemma fgtb_zero (q : Qc) : fgtb (Fin q) zero = true <-> (0 < q)%Qc.
Proof.
  unfold fgtb, zero. change (qz 0) with 0%Qc.
  change (0 < q)%Qc with (q > 0)%Qc. rewrite Qcgt_alt.
  destruct (Qccompare q 0%Qc); split; intro H;
    (reflexivity || discriminate H).
Qed.

(** C7. When the display series has at least two periods, the insights are
    narrated and the trend is "positive" exactly when [avg_growth_rate] is
    strictly greater than zero, and "negative" otherwise; an average of
    exactly zero gives "negative". *)
Theorem trend_positive_iff
  (df : list Row) (category_filter gender_filter month_filter : list string) :
  (2 <= List.length
          (monthly_sales df category_filter gender_filter month_filter))%nat ->
  exists i,
    insights df category_filter gender_filter month_filter = Some i /\
    i_avg_growth_rate i = avg_growth_rate df category_filter gender_filter /\
    (i_trend i = "positive"%string <->
       fgtb (i_avg_growth_rate i) zero = true) /\
    (i_trend i <> "positive"%string -> i_trend i = "negative"%string) /\
    (forall q, i_avg_growth_rate i = Fin q ->
       (i_trend i = "positive"%string <-> (0 < q)%Qc)) /\
    (i_avg_growth_rate i = zero -> i_trend i = "negative"%string).
Proof.
  intro Hlen. unfold insights.
  destruct (Nat.leb_spec 2 (List.length
              (monthly_sales df category_filter gender_filter month_filter)))
    as [_|Hlt]; [|lia].
  eexists. split; [reflexivity|].
  cbn [i_avg_growth_rate i_trend]. unfold trend.
  split; [reflexivity|].
  assert (Hiff :
    (if fgtb (avg_growth_rate df category_filter gender_filter) zero
     then "positive"%string else "negative"%string) = "positive"%string <->
    fgtb (avg_growth_rate df category_filter gender_filter) zero = true).
  { destruct (fgtb (avg_growth_rate df category_filter gender_filter) zero);
      split; intro H; (reflexivity || discriminate H). }
  split; [exact Hiff|].
  split.
  { destruct (fgtb (avg_growth_rate df category_filter gender_filter) zero);
      [intro H; now contradiction H | reflexivity]. }
  split.
  { intros q Hq. rewrite Hiff, Hq. apply fgtb_zero. }
  intro Hz. rewrite Hz. reflexivity.
Qed.

Lemma trend_positive_iff_witness :
  (2 <= List.length
          (monthly_sales Sample.df Sample.categories Sample.genders
             Sample.all_months))%nat /\
  exists i,
    insights Sample.df Sample.categories Sample.genders Sample.all_months
      = Some i /\
    i_trend i = "negative"%string /\
    (i_trend i = "positive"%string <->
       fgtb (i_avg_growth_rate i) zero = true).
Proof.
  assert (H : (2 <= List.length
                 (monthly_sales Sample.df Sample.categories Sample.genders
                    Sample.all_months))%nat)
    by (vm_compute; lia).
  split; [exact H|].
  destruct (trend_positive_iff Sample.df Sample.categories Sample.genders
              Sample.all_months H) as [i [Hi [Ha [Hiff _]]]].
  exists i. split; [exact Hi|]. split; [|exact Hiff].
  destruct (fgtb (i_avg_growth_rate i) zero) eqn:E.
  - exfalso. rewrite Ha in E. vm_compute in E. discriminate E.
  - destruct (string_dec (i_trend i) "positive") as [Hp|Hp].
    + apply Hiff in Hp. discriminate Hp.
    + unfold insights in Hi.
      destruct (2 <=? _)%nat; [|discriminate Hi].
      injection Hi as <-. cbn [i_trend i_avg_growth_rate] in *.
      unfold trend in *. rewrite E in *. reflexivity.
Defined.

(* ------------------------------------------------------------------ *)
(** ** Standard deviation                                              *)
(* ------------------------------------------------------------------ *)

Section StdFacts.

Local Open Scope R_scope.

Lemma Q2R_Q2Qc (q : Q) : Q2R (this (Q2Qc q)) = Q2R q.
Proof. apply Qeq_eqR. simpl. apply Qred_correct. Qed.

Lemma Q2R_Qcplus (a b : Qc) : Q2R (this (a + b)%Qc) = Q2R a + Q2R b.
Proof. unfold Qcplus. now rewrite Q2R_Q2Qc, Q2R_plus. Qed.

Lemma Q2R_Qcmult (a b : Qc) : Q2R (this (a * b)%Qc) = Q2R a * Q2R b.
Proof. unfold Qcmult. now rewrite Q2R_Q2Qc, Q2R_mult. Qed.

Lemma Q2R_Qcminus (a b : Qc) : Q2R (this (a - b)%Qc) = Q2R a - Q2R b.
Proof.
  unfold Qcminus, Qcopp. now rewrite Q2R_Qcplus, Q2R_Q2Qc, Q2R_opp.
Qed.

Lemma Q2R_qz (z : Z) : Q2R (this (qz z)) = IZR z.
Proof.
  unfold qz. rewrite Q2R_Q2Qc. unfold Q2R, inject_Z. simpl.
  rewrite Rinv_1. ring.
Qed.

Lemma Q2R_Qcdiv_qz (a : Qc) (z : Z) :
  z <> 0%Z -> Q2R (this (a / qz z)%Qc) = Q2R a / IZR z.
Proof.
  intro Hz. unfold Qcdiv, Qcinv. rewrite Q2R_Qcmult, Q2R_Q2Qc, Q2R_inv.
  - now rewrite Q2R_qz.
  - intro H. apply Qeq_eqR in H. rewrite Q2R_qz in H.
    change (Q2R 0) with (0 * / 1) in H. rewrite Rmult_0_l in H.
    now apply eq_IZR in H.
Qed.

Lemma Q2R_fold_plus (xs : list Qc) (acc : Qc) :
  Q2R (this (fold_left Qcplus xs acc)) = Q2R acc + Rsum (reals xs).
Proof.
  revert acc; induction xs as [|x xs IH]; intro acc; simpl.
  - ring.
  - rewrite IH, Q2R_Qcplus. ring.
Qed.

Lemma Q2R_qsum (xs : list Qc) : Q2R (this (qsum xs)) = Rsum (reals xs).
Proof.
  unfold qsum. rewrite Q2R_fold_plus, Q2R_qz. ring.
Qed.

Lemma Rsum_squares_nonneg (m : R) (xs : list R) :
  0 <= Rsum (map (fun x => (x - m) * (x - m)) xs).
Proof.
  induction xs as [|x xs IH]; simpl; [lra|].
  pose proof (Rle_0_sqr (x - m)) as H. unfold Rsqr in H. lra.
Qed.

(** The variance the script takes the root of, read in the reals: the sum
    of the squared deviations over the number of periods less one. *)
Lemma var_real (xs : list Qc) :
  (2 <= List.length xs)%nat ->
  exists v, var xs = Some v /\
    Q2R (this v) = sq_dev_sum (reals xs) / (INR (List.length xs) - 1).
Proof.
  intro Hlen. unfold var.
  destruct (Z.leb_spec (Z.of_nat (List.length xs)) 1) as [Hle|Hgt]; [lia|].
  eexists. split; [reflexivity|].
  rewrite Q2R_Qcdiv_qz by lia. rewrite Q2R_qsum.
  rewrite minus_IZR, <- INR_IZR_INZ. f_equal.
  unfold sq_dev_sum, reals. rewrite !length_map, !map_map. f_equal.
  apply map_ext. intro x.
  rewrite Q2R_Qcmult, Q2R_Qcminus, Q2R_Qcdiv_qz by lia.
  rewrite Q2R_qsum, <- INR_IZR_INZ. unfold reals. ring.
Qed.


End StdFacts.



(* ------------------------------------------------------------------ *)
(** ** What the aggregation keeps                                      *)
(* ------------------------------------------------------------------ *)

Section AggregateContents.

Lemma fold_plus_acc (xs : list Qc) (acc : Qc) :
  fold_left Qcplus xs acc = (acc + qsum xs)%Qc.
Proof.
  unfold qsum. change (qz 0) with 0%Qc.
  revert acc; induction xs as [|x xs IH]; intro acc; simpl; [ring|].
  rewrite (IH (acc + x)%Qc), (IH (0 + x)%Qc). ring.
Qed.

Lemma qsum_cons (x : Qc) (xs : list Qc) : qsum (x :: xs) = (x + qsum xs)%Qc.
Proof.
  unfold qsum at 1. simpl. rewrite fold_plus_acc.
  change (qz 0) with 0%Qc. ring.
Qed.

Lemma qsum_nil : qsum [] = 0%Qc.
Proof. reflexivity. Qed.

Lemma qsum_Permutation (xs ys : list Qc) :
  Permutation xs ys -> qsum xs = qsum ys.
Proof.
  induction 1 as [|x l l' _ IH|x y l|l l' l'' _ IH1 _ IH2].
  - reflexivity.
  - now rewrite !qsum_cons, IH.
  - rewrite !qsum_cons. ring.
  - now rewrite IH1.
Qed.

Lemma filter_Permutation {A : Type} (f : A -> bool) (xs ys : list A) :
  Permutation xs ys -> Permutation (filter f xs) (filter f ys).
Proof.
  induction 1 as [|x l l' _ IH|x y l|l l' l'' _ IH1 _ IH2]; simpl.
  - constructor.
  - destruct (f x); [now constructor | exact IH].
  - destruct (f x), (f y); try reflexivity. apply perm_swap.
  - now transitivity (filter f l').
Qed.

Lemma filter_twice {A : Type} (f g : A -> bool) (xs : list A) :
  filter f (filter g xs) = filter (fun x => g x && f x) xs.
Proof.
  induction xs as [|x xs IH]; simpl; [reflexivity|].
  destruct (g x); simpl; [destruct (f x)|]; now rewrite IH.
Qed.

Lemma group_add_front k v groups :
  Forall (mp_lt k) (periods groups) -> group_add k v groups = (k, v) :: groups.
Proof.
  destruct groups as [|[k0 v0] rest]; simpl; [reflexivity|].
  intro H. inversion H as [|? ? Hk _]; subst. unfold mp_lt in Hk.
  unfold mp_ltb. destruct (Z.ltb_spec (ord k) (ord k0)); [reflexivity|lia].
Qed.

Lemma Forall_filter_periods (P : MonthPeriod -> Prop)
  (f : MonthPeriod * Qc -> bool) groups :
  Forall P (periods groups) -> Forall P (periods (filter f groups)).
Proof.
  rewrite !Forall_forall. intros H k Hk. apply H.
  unfold periods in *. rewrite in_map_iff in *.
  destruct Hk as [x [Hx Hin]]. exists x. split; [exact Hx|].
  now apply filter_In in Hin.
Qed.

(** Dropping the groups of some periods commutes with adding a row. *)
Lemma group_add_filter (p : MonthPeriod -> bool) k v groups :
  ascending (periods groups) ->
  filter (fun g => p (fst g)) (group_add k v groups) =
  if p k then group_add k v (filter (fun g => p (fst g)) groups)
  else filter (fun g => p (fst g)) groups.
Proof.
  unfold ascending.
  induction groups as [|[k0 v0] rest IH]; intro Hasc.
  - simpl. destruct (p k); reflexivity.
  - inversion Hasc as [|? ? Hrest Hall]; subst.
    cbn [group_add].
    destruct (mp_ltb k k0) eqn:Elt.
    + apply Z.ltb_lt in Elt.
      assert (Hfront : Forall (mp_lt k) (periods ((k0, v0) :: rest))).
      { constructor; [exact Elt|].
        rewrite Forall_forall in *. intros x Hx. specialize (Hall x Hx).
        unfold mp_lt in *. lia. }
      cbn [filter fst]. destruct (p k); [|reflexivity].
      symmetry. apply group_add_front.
      exact (Forall_filter_periods _ (fun g => p (fst g)) _ Hfront).
    + destruct (mp_eqb k k0) eqn:Eeq.
      * apply mp_eqb_eq in Eeq. subst k0. cbn [filter fst].
        destruct (p k); [|reflexivity].
        cbn [group_add]. now rewrite Elt, mp_eqb_refl.
      * cbn [filter fst]. rewrite (IH Hrest).
        destruct (p k), (p k0); try reflexivity.
        cbn [group_add]. now rewrite Elt, Eeq.
Qed.

Section Generic.

Context {A : Type} (key : A -> MonthPeriod) (value : A -> Qc).

Lemma fold_group_add_filter (p : MonthPeriod -> bool) (frame : list A) groups :
  ascending (periods groups) ->
  fold_left (fun gs r => group_add (key r) (value r) gs)
    (filter (fun r => p (key r)) frame)
    (filter (fun g => p (fst g)) groups) =
  filter (fun g => p (fst g))
    (fold_left (fun gs r => group_add (key r) (value r) gs) frame groups).
Proof.
  revert groups; induction frame as [|r frame IH]; intros groups Hasc;
    [reflexivity|].
  cbn [filter fold_left].
  pose proof (group_add_filter p (key r) (value r) groups Hasc) as Hstep.
  rewrite <- (IH _ (group_add_ascending (key r) (value r) groups Hasc)).
  rewrite Hstep. destruct (p (key r)); reflexivity.
Qed.

(** Aggregating the rows of some periods gives the groups of these
    periods. *)
Lemma groupby_sum_filter (p : MonthPeriod -> bool) (frame : list A) :
  groupby_sum key value (filter (fun r => p (key r)) frame) =
  filter (fun g => p (fst g)) (groupby_sum key value frame).
Proof.
  unfold groupby_sum.
  rewrite <- (fold_group_add_filter p frame []); [reflexivity|constructor].
Qed.

Lemma group_add_qsum k v groups :
  qsum (map snd (group_add k v groups)) = (qsum (map snd groups) + v)%Qc.
Proof.
  induction groups as [|[k0 v0] rest IH]; cbn [group_add].
  - cbn [map snd]. rewrite qsum_cons, !qsum_nil. ring.
  - destruct (mp_ltb k k0); [|destruct (mp_eqb k k0)]; cbn [map snd];
      rewrite ?qsum_cons, ?IH; cbn [map snd]; rewrite ?qsum_cons; ring.
Qed.

(** The group sums add up to the sum of all rows. *)
Lemma groupby_sum_total (frame : list A) :
  qsum (map snd (groupby_sum key value frame)) = qsum (map value frame).
Proof.
  unfold groupby_sum.
  assert (H : forall groups,
    qsum (map snd
            (fold_left (fun gs r => group_add (key r) (value r) gs)
               frame groups))
    = (qsum (map snd groups) + qsum (map value frame))%Qc).
  { induction frame as [|r frame IH]; intro groups; cbn [fold_left map].
    - rewrite qsum_nil. ring.
    - rewrite IH, group_add_qsum, qsum_cons. ring. }
  rewrite H. cbn [map]. rewrite qsum_nil. ring.
Qed.

(** A group holds the sum of the rows of its period. *)
Lemma groupby_sum_amount (frame : list A) k v :
  In (k, v) (groupby_sum key value frame) ->
  v = qsum (map value (filter (fun r => mp_eqb (key r) k) frame)).
Proof.
  intro Hin.
  set (p := fun k' => mp_eqb k' k).
  assert (Hin' : In (k, v)
                   (groupby_sum key value (filter (fun r => p (key r)) frame))).
  { rewrite groupby_sum_filter. apply filter_In. split; [exact Hin|].
    unfold p. cbn [fst]. apply mp_eqb_refl. }
  change (v = qsum (map value (filter (fun r => p (key r)) frame))).
  rewrite <- (groupby_sum_total (filter (fun r => p (key r)) frame)).
  pose proof (groupby_sum_ascending key value
                (filter (fun r => p (key r)) frame)) as Hasc.
  assert (Hkeys : forall x,
            In x (groupby_sum key value (filter (fun r => p (key r)) frame)) ->
            fst x = k).
  { intros x Hx. rewrite groupby_sum_filter in Hx.
    apply filter_In in Hx. destruct Hx as [_ Hx]. now apply mp_eqb_eq in Hx. }
  destruct (groupby_sum key value (filter (fun r => p (key r)) frame))
    as [|x [|y rest]].
  - destruct Hin'.
  - destruct Hin' as [->|[]]. cbn [map snd].
    rewrite qsum_cons, qsum_nil. ring.
  - exfalso. apply ascending_NoDup in Hasc. cbn [periods map] in Hasc.
    inversion Hasc as [|? ? Hnot _]; subst. apply Hnot. left.
    rewrite (Hkeys x), (Hkeys y); simpl; auto.
Qed.

Lemma groupby_sum_In_pair (frame : list A) k v :
  In (k, v) (groupby_sum key value frame) <->
  (exists r, In r frame /\ key r = k) /\
  v = qsum (map value (filter (fun r => mp_eqb (key r) k) frame)).
Proof.
  split.
  - intro H. split; [|now apply groupby_sum_amount].
    apply (proj1 (groupby_sum_In key value frame k)).
    exact (in_map fst _ _ H).
  - intros [Hk Hv]. apply (proj2 (groupby_sum_In key value frame k)) in Hk.
    unfold periods in Hk. apply in_map_iff in Hk.
    destruct Hk as [[k' v'] [Hk' Hin]]. cbn [fst] in Hk'. subst k'.
    pose proof (groupby_sum_amount _ _ _ Hin) as Hv'. congruence.
Qed.

End Generic.

(** Two ascending frames with the same rows are the same frame. *)
Lemma ascending_ext (l1 l2 : list (MonthPeriod * Qc)) :
  ascending (periods l1) -> ascending (periods l2) ->
  (forall x, In x l1 <-> In x l2) -> l1 = l2.
Proof.
  unfold ascending.
  revert l2; induction l1 as [|h1 t1 IH]; intros [|h2 t2] H1 H2 Hext.
  - reflexivity.
  - destruct (proj2 (Hext h2) (or_introl eq_refl)).
  - destruct (proj1 (Hext h1) (or_introl eq_refl)).
  - inversion H1 as [|? ? Ht1 Hall1]; inversion H2 as [|? ? Ht2 Hall2]; subst.
    rewrite Forall_forall in Hall1, Hall2. unfold mp_lt in *.
    assert (Hh : h1 = h2).
    { destruct (proj1 (Hext h1) (or_introl eq_refl)) as [E|Hin1];
        [now symmetry|].
      destruct (proj2 (Hext h2) (or_introl eq_refl)) as [E|Hin2];
        [exact E|].
      specialize (Hall1 _ (in_map fst _ _ Hin2)).
      specialize (Hall2 _ (in_map fst _ _ Hin1)). lia. }
    subst h2. f_equal. apply (IH _ Ht1 Ht2). intro x. split; intro Hx.
    + destruct (proj1 (Hext x) (or_intror Hx)) as [E|Hin]; [|exact Hin].
      subst x. specialize (Hall1 _ (in_map fst _ _ Hx)). lia.
    + destruct (proj2 (Hext x) (or_intror Hx)) as [E|Hin]; [|exact Hin].
      subst x. specialize (Hall2 _ (in_map fst _ _ Hx)). lia.
Qed.

Lemma groupby_sum_Permutation {A : Type} (key : A -> MonthPeriod)
  (value : A -> Qc) (frame frame' : list A) :
  Permutation frame frame' ->
  groupby_sum key value frame = groupby_sum key value frame'.
Proof.
  intro Hperm.
  apply ascending_ext; try apply groupby_sum_ascending.
  intros [k v]. rewrite !groupby_sum_In_pair.
  assert (Hsum :
    qsum (map value (filter (fun r => mp_eqb (key r) k) frame)) =
    qsum (map value (filter (fun r => mp_eqb (key r) k) frame'))).
  { apply qsum_Permutation, Permutation_map, filter_Permutation, Hperm. }
  rewrite Hsum. split; intros [[r [Hr Hk]] Hv]; (split; [|exact Hv]);
    exists r; (split; [|exact Hk]).
  - now apply (Permutation_in _ Hperm).
  - now apply (Permutation_in _ (Permutation_sym Hperm)).
Qed.

Lemma growth_from_base_amounts prev frame :
  base_amounts (growth_from prev frame) = frame.
Proof.
  unfold base_amounts.
  revert prev; induction frame as [|[k v] rest IH]; intro prev;
    cbn [growth_from map fst snd b_Month_Period b_Total_Amount];
    [reflexivity|].
  now rewrite IH.
Qed.

Lemma monthly_base_amounts df category_filter gender_filter :
  base_amounts (monthly_base df category_filter gender_filter) =
  groupby_sum Month_Period Total_Amount
    (base_df df category_filter gender_filter).
Proof. rewrite monthly_base_eq. apply growth_from_base_amounts. Qed.

Lemma filtered_df_of_base df category_filter gender_filter month_filter :
  filtered_df df category_filter gender_filter month_filter =
  filter (fun r => isin (Month_Name r) month_filter)
    (base_df df category_filter gender_filter).
Proof. unfold filtered_df, base_df. now rewrite filter_twice. Qed.

Lemma nansum_finite (xs : list Qc) : nansum (map Fin xs) = Fin (qsum xs).
Proof.
  unfold nansum, qsum, zero.
  generalize (qz 0). induction xs as [|x xs IH]; intro acc;
    cbn [map filter notna fold_left fadd]; [reflexivity|].
  apply IH.
Qed.

Lemma count_finite (xs : list Qc) : count (map Fin xs) = List.length xs.
Proof.
  unfold count. induction xs as [|x xs IH]; cbn [map filter notna List.length];
    [reflexivity|]. now rewrite IH.
Qed.

End AggregateContents.

(** X1. The month filter only hides months: the display series is the base
    series restricted to the periods whose month name is selected, so every
    displayed month carries exactly its base sum. *)
Theorem display_is_month_filtered_base
  (df : list Row) (category_filter gender_filter month_filter : list string) :
  monthly_sales df category_filter gender_filter month_filter =
    filter (month_selected month_filter)
      (base_amounts (monthly_base df category_filter gender_filter)) /\
  incl (monthly_sales df category_filter gender_filter month_filter)
    (base_amounts (monthly_base df category_filter gender_filter)).
Proof.
  assert (H : monthly_sales df category_filter gender_filter month_filter =
              filter (month_selected month_filter)
                (base_amounts
                   (monthly_base df category_filter gender_filter))).
  { rewrite monthly_sales_eq, monthly_base_amounts, filtered_df_of_base.
    exact (groupby_sum_filter Month_Period Total_Amount
             (fun k => isin (full_name (mp_month k)) month_filter) _). }
  split; [exact H|].
  rewrite H. intros x Hx. now apply filter_In in Hx.
Qed.

(** X2. [total_revenue] is the sum of [Total Amount] over the transactions
    that pass the three filters: grouping by month loses nothing. *)
Theorem total_revenue_is_filtered_total
  (df : list Row) (category_filter gender_filter month_filter : list string) :
  total_revenue df category_filter gender_filter month_filter =
  Fin (qsum (map Total_Amount
               (filtered_df df category_filter gender_filter month_filter))).
Proof.
  unfold total_revenue.
  rewrite <- (map_map snd Fin), nansum_finite, monthly_sales_eq.
  now rewrite groupby_sum_total.
Qed.

(** X3. A period is in the display series exactly when some transaction
    that passes the three filters falls in it, and in the base series
    exactly when some transaction that passes the category and gender
    filters does: no month is invented, none is lost. *)
Theorem period_listed_iff_transaction
  (df : list Row) (category_filter gender_filter month_filter : list string)
  (k : MonthPeriod) :
  (In k (periods (monthly_sales df category_filter gender_filter month_filter))
   <->
   exists r,
     In r (filtered_df df category_filter gender_filter month_filter) /\
     Month_Period r = k) /\
  (In k (map b_Month_Period (monthly_base df category_filter gender_filter))
   <->
   exists r,
     In r (base_df df category_filter gender_filter) /\ Month_Period r = k).
Proof.
  rewrite monthly_sales_eq, monthly_base_periods.
  split; apply groupby_sum_In.
Qed.

(** X5. The order of the rows of the dataset does not matter: reordering
    them changes neither series, nor the revenue KPIs, nor the forecast. *)
Theorem row_order_irrelevant
  (df df' : list Row) (category_filter gender_filter month_filter : list string) :
  Permutation df df' ->
  monthly_sales df category_filter gender_filter month_filter =
    monthly_sales df' category_filter gender_filter month_filter /\
  monthly_base df category_filter gender_filter =
    monthly_base df' category_filter gender_filter /\
  total_revenue df category_filter gender_filter month_filter =
    total_revenue df' category_filter gender_filter month_filter /\
  avg_monthly_revenue df category_filter gender_filter month_filter =
    avg_monthly_revenue df' category_filter gender_filter month_filter /\
  forecast df category_filter gender_filter month_filter =
    forecast df' category_filter gender_filter month_filter.
Proof.
  intro Hperm.
  assert (Hms : monthly_sales df category_filter gender_filter month_filter =
                monthly_sales df' category_filter gender_filter month_filter).
  { rewrite !monthly_sales_eq. apply groupby_sum_Permutation.
    unfold filtered_df. now apply filter_Permutation. }
  assert (Hmb : monthly_base df category_filter gender_filter =
                monthly_base df' category_filter gender_filter).
  { rewrite !monthly_base_eq. f_equal. apply groupby_sum_Permutation.
    unfold base_df. now apply filter_Permutation. }
  unfold total_revenue, avg_monthly_revenue, forecast.
  rewrite Hms, Hmb. repeat split.
Qed.

Lemma row_order_irrelevant_witness :
  Permutation Sample.df (rev Sample.df) /\
  monthly_sales Sample.df Sample.categories Sample.genders Sample.all_months =
    monthly_sales (rev Sample.df) Sample.categories Sample.genders
      Sample.all_months /\
  forecast Sample.df Sample.categories Sample.genders Sample.all_months =
    forecast (rev Sample.df) Sample.categories Sample.genders
      Sample.all_months.
Proof.
  pose proof (Permutation_rev Sample.df) as H.
  split; [exact H|].
  destruct (row_order_irrelevant Sample.df (rev Sample.df) Sample.categories
              Sample.genders Sample.all_months H) as [H1 [_ [_ [_ H5]]]].
  split; [exact H1 | exact H5].
Defined.

(* ------------------------------------------------------------------ *)
(** ** The forecast block, further                                     *)
(* ------------------------------------------------------------------ *)

Section ForecastFacts.

Lemma strftime_B_Y_not_NA (p : MonthPeriod) : strftime_B_Y p <> "N/A"%string.
Proof.
  destruct p as [y m]. unfold strftime_B_Y. cbn [mp_month mp_year].
  destruct m; cbn [full_name String.append]; discriminate.
Qed.

Lemma base_row_of_period df category_filter gender_filter k :
  In k (map b_Month_Period (monthly_base df category_filter gender_filter)) ->
  exists r, In r (monthly_base df category_filter gender_filter) /\
            b_Month_Period r = k.
Proof.
  intro H. apply in_map_iff in H. destruct H as [r [Hk Hr]]. now exists r.
Qed.



Lemma qz_inj (z : Z) : qz z = qz 0 -> z = 0%Z.
Proof.
  intro H. apply (f_equal (fun q => Q2R (this q))) in H.
  rewrite !Q2R_qz in H. now apply eq_IZR in H.
Qed.

Lemma Q2R_Qcdiv (a b : Qc) :
  b <> 0%Qc -> Q2R (this (a / b)%Qc) = (Q2R a / Q2R b)%R.
Proof.
  intro Hb. unfold Qcdiv, Qcinv. rewrite Q2R_Qcmult, Q2R_Q2Qc, Q2R_inv.
  - reflexivity.
  - intro H. apply Hb. apply Qc_is_canon. exact H.
Qed.

Lemma Qclt_Rlt (a b : Qc) : (a < b)%Qc <-> (Q2R a < Q2R b)%R.
Proof. split; [apply Qlt_Rlt | apply Rlt_Qlt]. Qed.

Lemma Qcle_Rle (a b : Qc) : (a <= b)%Qc <-> (Q2R a <= Q2R b)%R.
Proof. split; [apply Qle_Rle | apply Rle_Qle]. Qed.

Lemma Q2R_Qc_inj (a b : Qc) : Q2R a = Q2R b -> a = b.
Proof. intro H. apply Qc_is_canon. now apply eqR_Qeq. Qed.

Lemma Q2R_zero : Q2R (this 0%Qc) = 0%R.
Proof. change 0%Qc with (qz 0). apply Q2R_qz. Qed.

End ForecastFacts.

(** X6. The two month labels are "N/A" exactly when the forecast block did
    nothing, and then the three amounts are 0; otherwise they name the
    calendar months just before and just after the selected month. *)
Theorem forecast_labels
  (df : list Row) (category_filter gender_filter month_filter : list string) :
  let f := forecast df category_filter gender_filter month_filter in
  (previous_month_label f = "N/A"%string <-> f = forecast_defaults) /\
  (next_month_label f = "N/A"%string <-> f = forecast_defaults) /\
  (f <> forecast_defaults ->
   exists last_row,
     iloc_last (monthly_sales df category_filter gender_filter month_filter)
       = Some last_row /\
     previous_month_label f = strftime_B_Y (minus_one_month (fst last_row)) /\
     next_month_label f = strftime_B_Y (plus_one_month (fst last_row)) /\
     ord (plus_one_month (fst last_row)) =
       ord (minus_one_month (fst last_row)) + 2).
Proof.
  cbv zeta. unfold forecast.
  destruct (iloc_last (monthly_sales df category_filter gender_filter
                         month_filter)) as [last_row|];
    [|repeat split; try reflexivity; intro H; now contradiction H].
  cbv zeta.
  destruct (rows_at (monthly_base df category_filter gender_filter)
              (minus_one_month (fst last_row))) as [|p ps];
    [repeat split; try reflexivity; intro H; now contradiction H|].
  destruct (rows_at (monthly_base df category_filter gender_filter)
              (fst last_row)) as [|c cs];
    [repeat split; try reflexivity; intro H; now contradiction H|].
  cbn [previous_month_label next_month_label].
  split; [|split].
  - split; intro H.
    + now apply strftime_B_Y_not_NA in H.
    + apply (f_equal previous_month_label) in H.
      cbn [previous_month_label forecast_defaults] in H.
      now apply strftime_B_Y_not_NA in H.
  - split; intro H.
    + now apply strftime_B_Y_not_NA in H.
    + apply (f_equal next_month_label) in H.
      cbn [next_month_label forecast_defaults] in H.
      now apply strftime_B_Y_not_NA in H.
  - intros _. exists last_row. repeat split.
    rewrite ord_plus_one_month, ord_minus_one_month. lia.
Qed.

Lemma forecast_labels_witness :
  let f :=
    forecast Sample.df Sample.categories Sample.genders Sample.all_months in
  f <> forecast_defaults /\
  previous_month_label f = "February 2023"%string /\
  next_month_label f = "April 2023"%string.
Proof.
  cbv zeta.
  assert (H : forecast Sample.df Sample.categories Sample.genders
                Sample.all_months <> forecast_defaults).
  { intro H. apply (f_equal previous_month_label) in H.
    vm_compute in H. discriminate H. }
  split; [exact H|].
  destruct (proj2 (proj2 (forecast_labels Sample.df Sample.categories
                            Sample.genders Sample.all_months)) H)
    as [last_row [Hl [Hp [Hn _]]]].
  vm_compute in Hl. injection Hl as <-.
  rewrite Hp, Hn. split; reflexivity.
Defined.

(** X7. Division by zero is not guarded.  When the previous month's base
    sum is 0, the forecast block still runs: a positive (negative) sum of
    the selected month gives an infinite [expected_growth] and a NaN
    [next_month_revenue]; a zero sum gives a NaN growth rate, which leaves
    both at 0.  In all three cases [previous_month_revenue] is 0 and the
    labels are set. *)
Theorem zero_previous_month_forecast
  (df : list Row) (category_filter gender_filter month_filter : list string)
  (last_row : MonthPeriod * Qc) (pr cr : BaseRow) :
  iloc_last (monthly_sales df category_filter gender_filter month_filter)
    = Some last_row ->
  In pr (monthly_base df category_filter gender_filter) ->
  b_Month_Period pr = minus_one_month (fst last_row) ->
  In cr (monthly_base df category_filter gender_filter) ->
  b_Month_Period cr = fst last_row ->
  b_Total_Amount pr = qz 0 ->
  let f := forecast df category_filter gender_filter month_filter in
  previous_month_revenue f = zero /\
  previous_month_label f <> "N/A"%string /\
  ((0 < b_Total_Amount cr)%Qc ->
   expected_growth f = PInf /\ next_month_revenue f = NaN) /\
  ((b_Total_Amount cr < 0)%Qc ->
   expected_growth f = NInf /\ next_month_revenue f = NaN) /\
  (b_Total_Amount cr = qz 0 ->
   expected_growth f = zero /\ next_month_revenue f = zero).
Proof.
  intros Hlast Hpr Hkp Hcr Hkc Hz f. subst f.
  rewrite (forecast_found _ _ _ _ _ _ _ Hlast Hpr Hkp Hcr Hkc).
  cbn [previous_month_revenue next_month_revenue expected_growth
       previous_month_label].
  assert (Hg : b_Growth_Rate cr =
               fsub (fdiv (Fin (b_Total_Amount cr))
                       (Fin (b_Total_Amount pr))) one).
  { rewrite monthly_base_eq in Hpr, Hcr.
    apply (growth_against_previous _ _ _ _
             (groupby_sum_ascending _ _ _) Hpr Hcr).
    rewrite Hkp, Hkc, ord_minus_one_month. lia. }
  rewrite Hg, Hz. unfold fdiv.
  change (Qc_eq_bool (qz 0) (qz 0)) with true. cbv iota.
  split; [reflexivity|]. split; [apply strftime_B_Y_not_NA|].
  change (qz 0) with 0%Qc.
  split; [|split].
  - intro Hc.
    assert (Ec : Qccompare (b_Total_Amount cr) 0%Qc = Gt)
      by (apply Qcgt_alt; exact Hc).
    rewrite Ec. split; reflexivity.
  - intro Hc.
    assert (Ec : Qccompare (b_Total_Amount cr) 0%Qc = Lt)
      by (apply Qclt_alt; exact Hc).
    rewrite Ec. split; reflexivity.
  - intros ->. split; reflexivity.
Qed.

Lemma zero_previous_month_forecast_witness :
  let base :=
    monthly_base Sample2.df_zero Sample.categories Sample.genders in
  let f :=
    forecast Sample2.df_zero Sample.categories Sample.genders
      Sample.jan_feb in
  let last_row := (mkPeriod 2023 February, qz 500) in
  let pr := nth 0 base (mkBase (mkPeriod 0 January) (qz 1) NaN) in
  let cr := nth 1 base (mkBase (mkPeriod 0 January) (qz 1) NaN) in
  iloc_last (monthly_sales Sample2.df_zero Sample.categories Sample.genders
               Sample.jan_feb) = Some last_row /\
  In pr base /\ b_Month_Period pr = minus_one_month (fst last_row) /\
  In cr base /\ b_Month_Period cr = fst last_row /\
  b_Total_Amount pr = qz 0 /\
  (0 < b_Total_Amount cr)%Qc /\
  expected_growth f = PInf /\ next_month_revenue f = NaN.
Proof.
  cbv zeta.
  match goal with
  | |- ?A /\ ?B /\ ?C /\ ?D /\ ?E /\ ?F /\ ?G /\ _ =>
      assert (H1 : A) by (vm_compute; reflexivity);
      assert (H2 : B) by (vm_compute; left; reflexivity);
      assert (H3 : C) by (vm_compute; reflexivity);
      assert (H4 : D) by (vm_compute; right; left; reflexivity);
      assert (H5 : E) by (vm_compute; reflexivity);
      assert (H6 : F) by (vm_compute; reflexivity);
      assert (H7 : G) by (vm_compute; reflexivity)
  end.
  repeat (split; [assumption|]).
  exact (proj1 (proj2 (proj2
    (zero_previous_month_forecast Sample2.df_zero Sample.categories
       Sample.genders Sample.jan_feb _ _ _ H1 H2 H3 H4 H5 H6))) H7).
Defined.



(* ------------------------------------------------------------------ *)
(** ** The insights block, further                                     *)
(* ------------------------------------------------------------------ *)

Section InsightFacts.

Lemma idxmax_from_first l best :
  exists l1 l2,
    best :: l = l1 ++ idxmax_from best l :: l2 /\
    (forall x, In x l1 -> (snd x < snd (idxmax_from best l))%Qc) /\
    (forall x, In x l2 -> (snd x <= snd (idxmax_from best l))%Qc).
Proof.
  revert best; induction l as [|x rest IH]; intro best; cbn [idxmax_from].
  - exists [], []. split; [reflexivity|]. split; intros y [].
  - destruct (Qccompare (snd x) (snd best)) eqn:E.
    1,2: assert (Hle : (snd x <= snd best)%Qc)
           by (apply Qcle_alt; rewrite E; discriminate);
         destruct (IH best) as [l1 [l2 [Heq [H1 H2]]]];
         destruct l1 as [|b l1'];
         [ cbn [app] in Heq; injection Heq as Hb Hr;
           exists [], (x :: l2); rewrite <- Hb in H1, H2 |- *;
           split; [cbn [app]; do 2 f_equal; exact Hr|];
           split; [intros y []|];
           intros y [<-|Hy]; [exact Hle | now apply H2]
         | cbn [app] in Heq; injection Heq as Hb Hr;
           exists (best :: x :: l1'), l2;
           split; [cbn [app]; do 2 f_equal; exact Hr|];
           split; [|exact H2];
           intros y [<-|[<-|Hy]];
           [ apply H1; left; now symmetry
           | apply (Qcle_lt_trans _ (snd best)); [exact Hle|];
             apply H1; left; now symmetry
           | apply H1; now right ] ].
    assert (Hlt : (snd best < snd x)%Qc) by (apply Qcgt_alt; exact E).
    destruct (IH x) as [l1 [l2 [Heq [H1 H2]]]].
    exists (best :: l1), l2.
    split; [cbn [app]; f_equal; exact Heq|].
    split; [|exact H2].
    intros y [<-|Hy]; [|now apply H1].
    destruct l1 as [|b l1'].
    + cbn [app] in Heq. injection Heq as Hb _. now rewrite <- Hb.
    + cbn [app] in Heq. injection Heq as Hb _.
      apply (Qclt_trans _ (snd x)); [exact Hlt|].
      apply H1. left. now symmetry.
Qed.

Lemma idxmin_from_first l best :
  exists l1 l2,
    best :: l = l1 ++ idxmin_from best l :: l2 /\
    (forall x, In x l1 -> (snd (idxmin_from best l) < snd x)%Qc) /\
    (forall x, In x l2 -> (snd (idxmin_from best l) <= snd x)%Qc).
Proof.
  revert best; induction l as [|x rest IH]; intro best; cbn [idxmin_from].
  - exists [], []. split; [reflexivity|]. split; intros y [].
  - destruct (Qccompare (snd x) (snd best)) eqn:E.
    1,3: assert (Hle : (snd best <= snd x)%Qc)
           by (apply Qcnot_lt_le; intro Hlt;
               assert (E' : Qccompare (snd x) (snd best) = Lt)
                 by (apply Qclt_alt; exact Hlt);
               rewrite E in E'; discriminate E');
         destruct (IH best) as [l1 [l2 [Heq [H1 H2]]]];
         destruct l1 as [|b l1'];
         [ cbn [app] in Heq; injection Heq as Hb Hr;
           exists [], (x :: l2); rewrite <- Hb in H1, H2 |- *;
           split; [cbn [app]; do 2 f_equal; exact Hr|];
           split; [intros y []|];
           intros y [<-|Hy]; [exact Hle | now apply H2]
         | cbn [app] in Heq; injection Heq as Hb Hr;
           exists (best :: x :: l1'), l2;
           split; [cbn [app]; do 2 f_equal; exact Hr|];
           split; [|exact H2];
           intros y [<-|[<-|Hy]];
           [ apply H1; left; now symmetry
           | apply (Qclt_le_trans _ (snd best)); [|exact Hle];
             apply H1; left; now symmetry
           | apply H1; now right ] ].
    assert (Hlt : (snd x < snd best)%Qc) by (apply Qclt_alt; exact E).
    destruct (IH x) as [l1 [l2 [Heq [H1 H2]]]].
    exists (best :: l1), l2.
    split; [cbn [app]; f_equal; exact Heq|].
    split; [|exact H2].
    intros y [<-|Hy]; [|now apply H1].
    destruct l1 as [|b l1'].
    + cbn [app] in Heq. injection Heq as Hb _. now rewrite <- Hb.
    + cbn [app] in Heq. injection Heq as Hb _.
      apply (Qclt_trans _ (snd x)); [|exact Hlt].
      apply H1. left. now symmetry.
Qed.

End InsightFacts.

Section SeriesStatistics.

Local Open Scope R_scope.

Lemma Rsum_bounds (lo hi : R) (xs : list R) :
  (forall x, In x xs -> lo <= x <= hi) ->
  INR (List.length xs) * lo <= Rsum xs <= INR (List.length xs) * hi.
Proof.
  induction xs as [|x xs IH]; intro H.
  - simpl. lra.
  - cbn [List.length Rsum fold_right]. rewrite S_INR.
    assert (Hx : lo <= x <= hi) by (apply H; now left).
    assert (Hxs : forall y, In y xs -> lo <= y <= hi)
      by (intros y Hy; apply H; now right).
    specialize (IH Hxs). unfold Rsum in IH. lra.
Qed.

Lemma Rmean_between (lo hi : R) (xs : list R) :
  xs <> [] ->
  (forall x, In x xs -> lo <= x <= hi) ->
  lo <= Rsum xs / INR (List.length xs) <= hi.
Proof.
  intros Hne H. pose proof (Rsum_bounds lo hi xs H) as [H1 H2].
  assert (Hn : 0 < INR (List.length xs)).
  { destruct xs; [now contradiction Hne|]. apply lt_0_INR. simpl. lia. }
  split.
  - apply Rmult_le_reg_r with (INR (List.length xs)); [exact Hn|].
    unfold Rdiv. rewrite Rmult_assoc, Rinv_l by lra. lra.
  - apply Rmult_le_reg_r with (INR (List.length xs)); [exact Hn|].
    unfold Rdiv. rewrite Rmult_assoc, Rinv_l by lra. lra.
Qed.

Lemma Rsum_squares_zero (m : R) (xs : list R) :
  Rsum (map (fun x => (x - m) * (x - m)) xs) = 0 <->
  forall x, In x xs -> x = m.
Proof.
  induction xs as [|x xs IH]; cbn [map Rsum fold_right].
  - split; [intros _ y [] | reflexivity].
  - pose proof (Rsum_squares_nonneg m xs) as Hnn. unfold Rsum in *.
    pose proof (Rle_0_sqr (x - m)) as Hsq. unfold Rsqr in Hsq.
    split.
    + intros H y [<-|Hy].
      * assert (E : (x - m) * (x - m) = 0) by lra.
        apply Rmult_integral in E. lra.
      * apply IH; [lra | exact Hy].
    + intro H.
      assert (Hx : x = m) by (apply H; now left).
      assert (Hxs : fold_right Rplus 0 (map (fun x => (x - m) * (x - m)) xs)
                    = 0)
        by (apply IH; intros y Hy; apply H; now right).
      rewrite Hxs, Hx. ring.
Qed.

Lemma Rsum_constant (c : R) (xs : list R) :
  (forall x, In x xs -> x = c) -> Rsum xs = INR (List.length xs) * c.
Proof.
  induction xs as [|x xs IH]; intro H.
  - simpl. ring.
  - cbn [List.length Rsum fold_right]. rewrite S_INR.
    rewrite (H x (or_introl eq_refl)).
    unfold Rsum in IH. rewrite IH; [ring|].
    intros y Hy. apply H. now right.
Qed.

Lemma var_nonneg (xs : list Qc) (v : Qc) :
  var xs = Some v -> 0 <= Q2R v.
Proof.
  intro Hv.
  assert (Hlen : (2 <= List.length xs)%nat).
  { unfold var in Hv.
    destruct (Z.leb_spec (Z.of_nat (List.length xs)) 1);
      [discriminate Hv | lia]. }
  destruct (var_real xs Hlen) as [v' [Hv' Hr]].
  rewrite Hv in Hv'. injection Hv' as <-. rewrite Hr.
  assert (Hn : 1 < INR (List.length xs))
    by (change 1 with (INR 1); apply lt_INR; lia).
  apply Rmult_le_pos; [apply Rsum_squares_nonneg|].
  apply Rlt_le, Rinv_0_lt_compat. lra.
Qed.

Lemma avg_monthly_revenue_finite
  (df : list Row) (category_filter gender_filter month_filter : list string) :
  monthly_sales df category_filter gender_filter month_filter <> [] ->
  avg_monthly_revenue df category_filter gender_filter month_filter =
  Fin (qsum (map snd
               (monthly_sales df category_filter gender_filter month_filter))
       / qz (Z.of_nat
               (List.length
                  (monthly_sales df category_filter gender_filter
                     month_filter))))%Qc.
Proof.
  intro Hne. unfold avg_monthly_revenue, mean.
  rewrite <- (map_map snd Fin), nansum_finite, count_finite, length_map.
  apply fdiv_finite.
  intro H. apply qz_inj in H.
  destruct (monthly_sales df category_filter gender_filter month_filter);
    [now apply Hne | discriminate H].
Qed.

Lemma Q2R_mean (xs : list Qc) :
  xs <> [] ->
  Q2R (this (qsum xs / qz (Z.of_nat (List.length xs)))%Qc) =
  Rsum (reals xs) / INR (List.length (reals xs)).
Proof.
  intro Hne. rewrite Q2R_Qcdiv_qz.
  - rewrite Q2R_qsum, <- INR_IZR_INZ. unfold reals. now rewrite length_map.
  - destruct xs; [now contradiction Hne | discriminate].
Qed.

End SeriesStatistics.

(** X11. When the insights are shown, the best month is a row of the
    display series holding the largest sum, and the earliest such row:
    every earlier row has a strictly smaller sum.  The worst month is
    likewise the earliest row holding the smallest sum. *)
Theorem best_and_worst_month
  (df : list Row) (category_filter gender_filter month_filter : list string) :
  (2 <= List.length
          (monthly_sales df category_filter gender_filter month_filter))%nat ->
  exists i b w,
    insights df category_filter gender_filter month_filter = Some i /\
    i_best_month i = Some b /\ i_worst_month i = Some w /\
    (exists l1 l2,
       monthly_sales df category_filter gender_filter month_filter
         = l1 ++ b :: l2 /\
       (forall x, In x l1 -> (snd x < snd b)%Qc) /\
       (forall x, In x l2 -> (snd x <= snd b)%Qc)) /\
    (exists l1 l2,
       monthly_sales df category_filter gender_filter month_filter
         = l1 ++ w :: l2 /\
       (forall x, In x l1 -> (snd w < snd x)%Qc) /\
       (forall x, In x l2 -> (snd w <= snd x)%Qc)).
Proof.
  intro Hlen. unfold insights.
  destruct (Nat.leb_spec 2 (List.length
              (monthly_sales df category_filter gender_filter month_filter)))
    as [_|Hlt]; [|lia].
  destruct (monthly_sales df category_filter gender_filter month_filter)
    as [|x l]; [simpl in Hlen; lia|].
  eexists. exists (idxmax_from x l), (idxmin_from x l).
  split; [reflexivity|]. cbn [i_best_month i_worst_month].
  split; [reflexivity|]. split; [reflexivity|].
  split; [apply idxmax_from_first | apply idxmin_from_first].
Qed.

Lemma best_and_worst_month_witness :
  (2 <= List.length
          (monthly_sales Sample.df Sample.categories Sample.genders
             Sample.all_months))%nat /\
  exists i b w,
    insights Sample.df Sample.categories Sample.genders Sample.all_months
      = Some i /\
    i_best_month i = Some b /\ i_worst_month i = Some w /\
    b = (mkPeriod 2023 February, qz 1200) /\
    w = (mkPeriod 2023 March, qz 900).
Proof.
  assert (H : (2 <= List.length
                 (monthly_sales Sample.df Sample.categories Sample.genders
                    Sample.all_months))%nat)
    by (vm_compute; lia).
  split; [exact H|].
  destruct (best_and_worst_month Sample.df Sample.categories Sample.genders
              Sample.all_months H) as [i [b [w [Hi [Hb [Hw _]]]]]].
  exists i, b, w. split; [exact Hi|]. split; [exact Hb|]. split; [exact Hw|].
  unfold insights in Hi.
  destruct (2 <=? _)%nat; [|discriminate Hi].
  injection Hi as <-. cbn [i_best_month i_worst_month] in Hb, Hw.
  vm_compute in Hb, Hw. injection Hb as <-. injection Hw as <-.
  split; reflexivity.
Defined.

(* ------------------------------------------------------------------ *)
(** ** Labels, loading and the sidebar                                 *)
(* ------------------------------------------------------------------ *)

Section LabelFacts.

Lemma year_string_inj (a b : Z) : year_string a = year_string b -> a = b.
Proof.
  unfold year_string. intro H.
  apply (f_equal NilEmpty.int_of_string) in H.
  rewrite !NilEmpty.isi in H. injection H as H.
  now apply DecimalZ.to_int_inj.
Qed.

Lemma strftime_b_Y_inj (p q : MonthPeriod) :
  strftime_b_Y p = strftime_b_Y q -> p = q.
Proof.
  destruct p as [y m], q as [y' m']. unfold strftime_b_Y.
  cbn [mp_year mp_month].
  destruct m, m'; cbn [abbr_name String.append]; intro H;
    try discriminate H;
    injection H as H; apply year_string_inj in H; now subst.
Qed.

Lemma NoDup_map_inj {X Y : Type} (f : X -> Y) (l : list X) :
  (forall a b, f a = f b -> a = b) -> NoDup l -> NoDup (map f l).
Proof.
  intros Hinj. induction 1 as [|x l Hx _ IH]; cbn [map]; constructor;
    [|exact IH].
  intro Hin. apply in_map_iff in Hin. destruct Hin as [y [Hy Hin]].
  apply Hinj in Hy. now subst y.
Qed.

End LabelFacts.

(** X15. The x-axis labels of the chart are pairwise distinct: two rows of
    the display series never share a "Mon YYYY" label, so no two points of
    the categorical axis are merged. *)
Theorem chart_labels_distinct
  (df : list Row) (category_filter gender_filter month_filter : list string) :
  NoDup (monthly_sales_labels df category_filter gender_filter month_filter) /\
  List.length
    (monthly_sales_labels df category_filter gender_filter month_filter) =
  List.length (monthly_sales df category_filter gender_filter month_filter).
Proof.
  unfold monthly_sales_labels. split; [|apply length_map].
  rewrite <- (map_map fst strftime_b_Y).
  apply NoDup_map_inj; [exact strftime_b_Y_inj|].
  apply ascending_NoDup.
  exact (monthly_sales_ascending df category_filter gender_filter month_filter).
Qed.

(** X17. The month filter works on month names, which carry no year: if
    it lets through one period, it lets through every period of the base
    series in the same calendar month of any other year. *)
Theorem month_filter_ignores_year
  (df : list Row) (category_filter gender_filter month_filter : list string)
  (k1 k2 : MonthPeriod) :
  mp_month k1 = mp_month k2 ->
  In k1 (periods
           (monthly_sales df category_filter gender_filter month_filter)) ->
  In k2 (map b_Month_Period
           (monthly_base df category_filter gender_filter)) ->
  In k2 (periods
           (monthly_sales df category_filter gender_filter month_filter)).
Proof.
  intros Hm H1 H2.
  rewrite monthly_sales_eq in *. rewrite monthly_base_periods in H2.
  apply groupby_sum_In in H1, H2. apply groupby_sum_In.
  destruct H1 as [r1 [Hr1 Hk1]]. destruct H2 as [r2 [Hr2 Hk2]].
  exists r2. split; [|exact Hk2].
  rewrite filtered_df_of_base in *. apply filter_In in Hr1.
  apply filter_In. split; [exact Hr2|].
  destruct Hr1 as [_ Hr1]. unfold Month_Name in *.
  now rewrite Hk2, <- Hm, <- Hk1.
Qed.

Lemma month_filter_ignores_year_witness :
  let k1 := mkPeriod 2023 January in
  let k2 := mkPeriod 2024 January in
  mp_month k1 = mp_month k2 /\
  In k1 (periods
           (monthly_sales Sample2.df_two_years Sample.categories
              Sample.genders Sample.jan)) /\
  In k2 (map b_Month_Period
           (monthly_base Sample2.df_two_years Sample.categories
              Sample.genders)) /\
  In k2 (periods
           (monthly_sales Sample2.df_two_years Sample.categories
              Sample.genders Sample.jan)).
Proof.
  cbv zeta.
  match goal with
  | |- ?A /\ ?B /\ ?C /\ _ =>
      assert (H1 : A) by reflexivity;
      assert (H2 : B) by (vm_compute; left; reflexivity);
      assert (H3 : C) by (vm_compute; right; right; left; reflexivity)
  end.
  repeat (split; [assumption|]).
  exact (month_filter_ignores_year Sample2.df_two_years Sample.categories
           Sample.genders Sample.jan _ _ H1 H2 H3).
Defined.

Section SidebarFacts.

Lemma unique_acc_In (seen xs : list string) (x : string) :
  In x (unique_acc seen xs) <-> In x xs /\ ~ In x seen.
Proof.
  revert seen; induction xs as [|y rest IH]; intro seen; cbn [unique_acc].
  - simpl. split; [intros [] | intros [[] _]].
  - destruct (isin y seen) eqn:E.
    + apply isin_In in E. rewrite IH. cbn [In]. split.
      * intros [H1 H2]. split; [now right | exact H2].
      * intros [[<-|H1] H2]; [contradiction | now split].
    + assert (Hy : ~ In y seen)
        by (intro Hy; apply isin_In in Hy; congruence).
      cbn [In]. rewrite IH. cbn [In].
      destruct (string_dec y x) as [<-|Hne].
      * split; [intros _; split; [now left | exact Hy] | intros _; now left].
      * split.
        -- intros [H|[H1 H2]]; [contradiction|].
           split; [now right | intro H; apply H2; now right].
        -- intros [[H|H1] H2]; [contradiction|].
           right. split; [exact H1 | intros [H|H]; contradiction].
Qed.

Lemma unique_acc_NoDup (seen xs : list string) : NoDup (unique_acc seen xs).
Proof.
  revert seen; induction xs as [|y rest IH]; intro seen; cbn [unique_acc].
  - constructor.
  - destruct (isin y seen); [apply IH|].
    constructor; [|apply IH].
    rewrite unique_acc_In. simpl. tauto.
Qed.

Lemma unique_In (xs : list string) (x : string) : In x (unique xs) <-> In x xs.
Proof. unfold unique. rewrite unique_acc_In. simpl. tauto. Qed.

Lemma sorted_insert_In (x y : string) (xs : list string) :
  In y (sorted_insert x xs) <-> y = x \/ In y xs.
Proof.
  induction xs as [|z rest IH]; cbn [sorted_insert].
  - simpl. intuition congruence.
  - destruct (String.leb x z); cbn [In]; [intuition congruence|].
    rewrite IH. intuition congruence.
Qed.

Lemma sorted_In (xs : list string) (x : string) : In x (sorted xs) <-> In x xs.
Proof.
  induction xs as [|y rest IH]; [reflexivity|].
  change (sorted (y :: rest)) with (sorted_insert y (sorted rest)).
  rewrite sorted_insert_In, IH. simpl. intuition congruence.
Qed.

Lemma sorted_insert_NoDup (x : string) (xs : list string) :
  ~ In x xs -> NoDup xs -> NoDup (sorted_insert x xs).
Proof.
  induction xs as [|z rest IH]; cbn [sorted_insert]; intros Hx Hnd.
  - repeat constructor. exact (fun H => H).
  - destruct (String.leb x z); [now constructor|].
    inversion Hnd as [|? ? Hz Hrest]; subst.
    constructor.
    + rewrite sorted_insert_In. intros [->|H]; [|contradiction].
      apply Hx. now left.
    + apply IH; [|exact Hrest]. intro H. apply Hx. now right.
Qed.

Lemma sorted_NoDup (xs : list string) : NoDup xs -> NoDup (sorted xs).
Proof.
  induction 1 as [|x xs Hx _ IH]; [constructor|].
  change (sorted (x :: xs)) with (sorted_insert x (sorted xs)).
  apply sorted_insert_NoDup; [|exact IH]. now rewrite sorted_In.
Qed.

Lemma sorted_insert_Sorted (x : string) (xs : list string) :
  Sorted (fun a b => String.leb a b = true) xs ->
  Sorted (fun a b => String.leb a b = true) (sorted_insert x xs).
Proof.
  induction xs as [|z rest IH]; cbn [sorted_insert]; intro H.
  - repeat constructor.
  - destruct (String.leb x z) eqn:E.
    + constructor; [exact H|]. now constructor.
    + inversion H as [|? ? Hrest Hhd]; subst.
      constructor; [exact (IH Hrest)|].
      assert (Hzx : String.leb z x = true)
        by (destruct (String.leb_total x z); congruence).
      destruct rest as [|w rest']; cbn [sorted_insert].
      * now constructor.
      * destruct (String.leb x w); constructor; [exact Hzx|].
        now inversion Hhd.
Qed.

Lemma sorted_Sorted (xs : list string) :
  Sorted (fun a b => String.leb a b = true) (sorted xs).
Proof.
  induction xs as [|x xs IH]; [constructor|].
  change (sorted (x :: xs)) with (sorted_insert x (sorted xs)).
  now apply sorted_insert_Sorted.
Qed.

Lemma sort_rows_insert_In (r y : Row) (rows : list Row) :
  In y (sort_rows_insert r rows) <-> y = r \/ In y rows.
Proof.
  induction rows as [|z rest IH]; cbn [sort_rows_insert].
  - simpl. intuition congruence.
  - destruct (mp_leb (Month_Period r) (Month_Period z)); cbn [In];
      [intuition congruence|].
    rewrite IH. intuition congruence.
Qed.

Lemma sort_rows_In (rows : list Row) (r : Row) :
  In r (sort_rows rows) <-> In r rows.
Proof.
  induction rows as [|y rest IH]; [reflexivity|].
  change (sort_rows (y :: rest)) with (sort_rows_insert y (sort_rows rest)).
  rewrite sort_rows_insert_In, IH. simpl. intuition congruence.
Qed.

(** The first row of the sorted dataset carries its earliest period. *)
Lemma sort_rows_head (rows : list Row) (r0 : Row) (rest : list Row) :
  sort_rows rows = r0 :: rest ->
  forall r, In r rows -> ord (Month_Period r0) <= ord (Month_Period r).
Proof.
  revert r0 rest; induction rows as [|y rows IH]; intros r0 rest H r Hr;
    [destruct Hr|].
  change (sort_rows (y :: rows)) with (sort_rows_insert y (sort_rows rows))
    in H.
  destruct (sort_rows rows) as [|z zs] eqn:E.
  - cbn [sort_rows_insert] in H. injection H as <- _.
    destruct Hr as [<-|Hr]; [lia|].
    apply sort_rows_In in Hr. rewrite E in Hr. destruct Hr.
  - cbn [sort_rows_insert] in H. unfold mp_leb in H.
    destruct (Z.leb_spec (ord (Month_Period y)) (ord (Month_Period z)))
      as [Hle|Hgt]; injection H as <- _.
    + destruct Hr as [<-|Hr]; [lia|].
      specialize (IH _ _ eq_refl r Hr). lia.
    + destruct Hr as [<-|Hr]; [lia|].
      exact (IH _ _ eq_refl r Hr).
Qed.

Lemma filter_all {A : Type} (f : A -> bool) (l : list A) :
  (forall x, In x l -> f x = true) -> filter f l = l.
Proof.
  intro H. apply forallb_filter_id. apply forallb_forall. exact H.
Qed.

Lemma category_options_In (df : list Row) (c : string) :
  In c (category_options df) <-> exists r, In r df /\ Product_Category r = c.
Proof.
  unfold category_options. rewrite sorted_In, unique_In, in_map_iff.
  split; intros [r [H1 H2]]; exists r; tauto.
Qed.

Lemma gender_options_In (df : list Row) (g : string) :
  In g (gender_options df) <-> exists r, In r df /\ Gender r = g.
Proof.
  unfold gender_options. rewrite sorted_In, unique_In, in_map_iff.
  split; intros [r [H1 H2]]; exists r; tauto.
Qed.

Lemma month_options_In (df : list Row) (m : string) :
  In m (month_options df) <-> exists r, In r df /\ Month_Name r = m.
Proof.
  unfold month_options. rewrite unique_In, in_map_iff.
  split; intros [r [H1 H2]]; exists r.
  - split; [now apply sort_rows_In | exact H1].
  - split; [exact H2 | now apply sort_rows_In].
Qed.

End SidebarFacts.

(** X18. With the default selection of the three multiselects (every
    option ticked) no transaction is filtered out, and the display series
    is the base series. *)
Theorem default_selection_shows_everything (df : list Row) :
  filtered_df df (category_options df) (gender_options df) (month_options df)
    = df /\
  base_df df (category_options df) (gender_options df) = df /\
  monthly_sales df (category_options df) (gender_options df)
    (month_options df)
    = base_amounts
        (monthly_base df (category_options df) (gender_options df)).
Proof.
  assert (H1 : filtered_df df (category_options df) (gender_options df)
                 (month_options df) = df).
  { unfold filtered_df. apply filter_all. intros r Hr.
    rewrite !andb_true_iff, !isin_In.
    rewrite category_options_In, gender_options_In, month_options_In.
    repeat split; exists r; tauto. }
  assert (H2 : base_df df (category_options df) (gender_options df) = df).
  { unfold base_df. apply filter_all. intros r Hr.
    rewrite !andb_true_iff, !isin_In.
    rewrite category_options_In, gender_options_In.
    split; exists r; tauto. }
  split; [exact H1|]. split; [exact H2|].
  now rewrite monthly_sales_eq, monthly_base_amounts, H1, H2.
Qed.

(** X19. Each multiselect offers every value of its column exactly once:
    the category and gender options in ascending order, the month options
    starting with the month name of the earliest period; a month name
    occurring in several years is offered once. *)
Theorem sidebar_options (df : list Row) :
  (NoDup (category_options df) /\
   Sorted (fun a b => String.leb a b = true) (category_options df) /\
   forall c, In c (category_options df) <->
             exists r, In r df /\ Product_Category r = c) /\
  (NoDup (gender_options df) /\
   Sorted (fun a b => String.leb a b = true) (gender_options df) /\
   forall g, In g (gender_options df) <->
             exists r, In r df /\ Gender r = g) /\
  (NoDup (month_options df) /\
   (forall m, In m (month_options df) <->
              exists r, In r df /\ Month_Name r = m) /\
   (forall m rest, month_options df = m :: rest ->
      exists r0, In r0 df /\ Month_Name r0 = m /\
        forall r, In r df -> ord (Month_Period r0) <= ord (Month_Period r))).
Proof.
  split; [|split].
  - split; [apply sorted_NoDup, unique_acc_NoDup|].
    split; [apply sorted_Sorted | apply category_options_In].
  - split; [apply sorted_NoDup, unique_acc_NoDup|].
    split; [apply sorted_Sorted | apply gender_options_In].
  - split; [apply unique_acc_NoDup|].
    split; [apply month_options_In|].
    intros m rest H. unfold month_options, unique in H.
    destruct (sort_rows df) as [|r0 rows] eqn:E; [discriminate H|].
    cbn [map unique_acc isin existsb] in H. injection H as <- _.
    exists r0. split; [apply sort_rows_In; rewrite E; now left|].
    split; [reflexivity|]. exact (sort_rows_head _ _ _ E).
Qed.

Lemma sidebar_options_witness :
  category_options Sample.df = ["Beauty"; "Clothing"; "Electronics"]%string /\
  gender_options Sample.df = ["Female"; "Male"]%string /\
  month_options Sample2.df_two_years = ["January"; "December"]%string /\
  exists r0,
    In r0 Sample2.df_two_years /\ Month_Name r0 = "January"%string /\
    forall r, In r Sample2.df_two_years ->
      ord (Month_Period r0) <= ord (Month_Period r).
Proof.
  split; [reflexivity|]. split; [reflexivity|].
  assert (H : month_options Sample2.df_two_years
              = ["January"; "December"]%string) by reflexivity.
  split; [exact H|].
  exact (proj2 (proj2 (proj2 (proj2 (sidebar_options Sample2.df_two_years))))
           _ _ H).
Defined.

Section FurtherFacts.

Lemma total_revenue_eq
  (df : list Row) (category_filter gender_filter month_filter : list string) :
  total_revenue df category_filter gender_filter month_filter =
  Fin (qsum (map Total_Amount
               (filtered_df df category_filter gender_filter month_filter))).
Proof.
  unfold total_revenue.
  rewrite <- (map_map snd Fin), nansum_finite, monthly_sales_eq.
  now rewrite groupby_sum_total.
Qed.

Lemma filtered_df_narrowed
  (df : list Row) (category_filter gender_filter narrow wide : list string) :
  incl narrow wide ->
  filtered_df df category_filter gender_filter narrow =
  filter (fun r => isin (Month_Name r) narrow)
    (filtered_df df category_filter gender_filter wide).
Proof.
  intro Hincl. unfold filtered_df. rewrite filter_twice.
  apply filter_ext_in. intros r _.
  destruct (isin (Product_Category r) category_filter); [|reflexivity].
  destruct (isin (Gender r) gender_filter); [|reflexivity].
  cbn [andb].
  destruct (isin (Month_Name r) narrow) eqn:E; [|now rewrite andb_false_r].
  apply isin_In in E. apply Hincl in E. apply isin_In in E. now rewrite E.
Qed.

Lemma qsum_filter_le {A : Type} (value : A -> Qc) (keep : A -> bool)
  (l : list A) :
  (forall x, In x l -> (0 <= value x)%Qc) ->
  (0 <= qsum (map value (filter keep l)))%Qc /\
  (qsum (map value (filter keep l)) <= qsum (map value l))%Qc.
Proof.
  intro Hnn. rewrite !Qcle_Rle, Q2R_zero.
  induction l as [|x l IH]; cbn [filter map].
  - rewrite qsum_nil, Q2R_zero. lra.
  - assert (Hx : (0 <= Q2R (value x))%R).
    { rewrite <- Q2R_zero. apply Qcle_Rle. apply Hnn. now left. }
    assert (IH' : (0 <= Q2R (qsum (map value (filter keep l))))%R /\
                  (Q2R (qsum (map value (filter keep l)))
                   <= Q2R (qsum (map value l)))%R)
      by (apply IH; intros y Hy; apply Hnn; now right).
    destruct (keep x); cbn [map]; rewrite ?qsum_cons, ?Q2R_Qcplus; lra.
Qed.

End FurtherFacts.

(** X20. The forecast block produces values exactly when the display
    series is not empty and at least one transaction that passes the
    category and gender filters falls in the calendar month before the
    selected month; the month filter plays no part in that second
    condition. *)
Theorem forecast_runs_iff
  (df : list Row) (category_filter gender_filter month_filter : list string) :
  forecast df category_filter gender_filter month_filter <> forecast_defaults
  <->
  exists last_row,
    iloc_last (monthly_sales df category_filter gender_filter month_filter)
      = Some last_row /\
    exists r,
      In r (base_df df category_filter gender_filter) /\
      Month_Period r = minus_one_month (fst last_row).
Proof.
  split.
  - intro Hf. unfold forecast in Hf.
    destruct (iloc_last (monthly_sales df category_filter gender_filter
                           month_filter)) as [last_row|];
      [|now contradiction Hf].
    cbv zeta in Hf. exists last_row. split; [reflexivity|].
    destruct (rows_at (monthly_base df category_filter gender_filter)
                (minus_one_month (fst last_row))) as [|p ps] eqn:Ep;
      [now contradiction Hf|].
    assert (Hp : In p (rows_at (monthly_base df category_filter gender_filter)
                         (minus_one_month (fst last_row))))
      by (rewrite Ep; now left).
    apply rows_at_In in Hp. destruct Hp as [Hp Hk].
    apply (groupby_sum_In Month_Period Total_Amount).
    rewrite <- monthly_base_periods, <- Hk. now apply in_map.
  - intros [last_row [Hlast [r [Hr Hk]]]].
    assert (Hprev : In (minus_one_month (fst last_row))
                      (map b_Month_Period
                         (monthly_base df category_filter gender_filter))).
    { rewrite monthly_base_periods. apply groupby_sum_In. now exists r. }
    assert (Hsel : In (fst last_row)
                     (map b_Month_Period
                        (monthly_base df category_filter gender_filter))).
    { apply (monthly_sales_in_base df category_filter gender_filter
               month_filter).
      apply in_map, iloc_last_In, Hlast. }
    apply base_row_of_period in Hprev, Hsel.
    destruct Hprev as [pr [Hpr Hkp]]. destruct Hsel as [cr [Hcr Hkc]].
    rewrite (forecast_found _ _ _ _ _ _ _ Hlast Hpr Hkp Hcr Hkc).
    intro H. apply (f_equal previous_month_label) in H.
    cbn [previous_month_label forecast_defaults] in H.
    now apply strftime_B_Y_not_NA in H.
Qed.

(** X21. The insights are narrated exactly when the transactions that
    pass the three filters fall in at least two different months; with a
    single month the notice is shown instead. *)
Theorem insights_shown_iff
  (df : list Row) (category_filter gender_filter month_filter : list string) :
  insights df category_filter gender_filter month_filter <> None <->
  exists r1 r2,
    In r1 (filtered_df df category_filter gender_filter month_filter) /\
    In r2 (filtered_df df category_filter gender_filter month_filter) /\
    Month_Period r1 <> Month_Period r2.
Proof.
  pose proof (monthly_sales_ascending df category_filter gender_filter
                month_filter) as Hasc.
  apply ascending_NoDup in Hasc.
  assert (Hin : forall k,
            In k (periods (monthly_sales df category_filter gender_filter
                             month_filter)) <->
            exists r,
              In r (filtered_df df category_filter gender_filter month_filter)
              /\ Month_Period r = k).
  { intro k. rewrite monthly_sales_eq. apply groupby_sum_In. }
  unfold insights.
  destruct (monthly_sales df category_filter gender_filter month_filter)
    as [|a [|b rest]]; cbn [List.length Nat.leb periods map] in *.
  - split; [intro H; now contradiction H|].
    intros [r1 [_ [Hr1 _]]]. exfalso.
    apply (proj2 (Hin (Month_Period r1))). now exists r1.
  - split; [intro H; now contradiction H|].
    intros [r1 [r2 [Hr1 [Hr2 Hne]]]]. exfalso. apply Hne.
    assert (H1 : In (Month_Period r1) [fst a])
      by (apply Hin; now exists r1).
    assert (H2 : In (Month_Period r2) [fst a])
      by (apply Hin; now exists r2).
    destruct H1 as [<-|[]]. destruct H2 as [<-|[]]. reflexivity.
  - split; [intros _|intros _; discriminate].
    destruct (proj1 (Hin (fst a)) (or_introl eq_refl)) as [r1 [Hr1 Hk1]].
    destruct (proj1 (Hin (fst b)) (or_intror (or_introl eq_refl)))
      as [r2 [Hr2 Hk2]].
    exists r1, r2. split; [exact Hr1|]. split; [exact Hr2|].
    rewrite Hk1, Hk2. inversion Hasc as [|? ? Hnot _]; subst.
    intro E. apply Hnot. left. now symmetry.
Qed.

(* ------------------------------------------------------------------ *)
(** ** Datasets of small integer amounts                               *)
(* ------------------------------------------------------------------ *)

(** Proves [small_integer_amounts] of a dataset given row by row. *)
Ltac small_dataset :=
  split;
  [ let r := fresh "r" in let Hr := fresh "Hr" in
    intros r Hr;
    repeat (destruct Hr as [<-|Hr];
            [eexists; split; [|reflexivity]; lia|]);
    destruct Hr
  | vm_compute; discriminate ].

Section ExactSums.

Lemma qz_plus (a b : Z) : (qz a + qz b)%Qc = qz (a + b).
Proof.
  apply Q2R_Qc_inj. rewrite Q2R_Qcplus, !Q2R_qz. now rewrite plus_IZR.
Qed.

Lemma qz_le (a b : Z) : (qz a <= qz b)%Qc <-> a <= b.
Proof.
  rewrite Qcle_Rle, !Q2R_qz. split; [apply le_IZR | apply IZR_le].
Qed.

Lemma qz_lt (a b : Z) : (qz a < qz b)%Qc <-> a < b.
Proof.
  rewrite Qclt_Rlt, !Q2R_qz. split; [apply lt_IZR | apply IZR_lt].
Qed.

Lemma qz_eq (a b : Z) : qz a = qz b <-> a = b.
Proof.
  split; [|now intros ->]. intro H.
  apply (f_equal (fun q => Q2R (this q))) in H.
  rewrite !Q2R_qz in H. now apply eq_IZR.
Qed.

Lemma qsum_integers (xs : list Qc) :
  (forall x, In x xs -> exists z : Z, 0 <= z /\ x = qz z) ->
  exists z : Z, 0 <= z /\ qsum xs = qz z.
Proof.
  induction xs as [|x xs IH]; intro H.
  - exists 0. split; [lia | reflexivity].
  - destruct (H x (or_introl eq_refl)) as [a [Ha ->]].
    destruct IH as [b [Hb Hs]]; [intros y Hy; apply H; now right|].
    exists (a + b). split; [lia|]. now rewrite qsum_cons, Hs, qz_plus.
Qed.

(** Any selection of the rows of such a dataset adds up, without rounding
    or wrapping, to an integer between 0 and 2^53. *)
Lemma small_filter_sum (df : list Row) (keep : Row -> bool) :
  small_integer_amounts df ->
  exists z : Z,
    0 <= z <= 2 ^ 53 /\
    qsum (map Total_Amount (filter keep df)) = qz z.
Proof.
  intros [Hint Hbound].
  destruct (qsum_integers (map Total_Amount (filter keep df)))
    as [z [Hz Hs]].
  { intros x Hx. apply in_map_iff in Hx. destruct Hx as [r [<- Hr]].
    apply filter_In in Hr. apply Hint. tauto. }
  exists z. split; [|exact Hs]. split; [exact Hz|].
  apply qz_le. rewrite <- Hs.
  apply (Qcle_trans _ (qsum (map Total_Amount df))); [|exact Hbound].
  apply qsum_filter_le. intros r Hr.
  destruct (Hint r Hr) as [a [Ha ->]].
  change 0%Qc with (qz 0). now apply qz_le.
Qed.

Variable df : list Row.
Variables category_filter gender_filter month_filter : list string.
Hypothesis Hsmall : small_integer_amounts df.

Lemma display_row_small k v :
  In (k, v) (monthly_sales df category_filter gender_filter month_filter) ->
  exists z : Z, 0 <= z <= 2 ^ 53 /\ v = qz z.
Proof.
  intro H. rewrite monthly_sales_eq in H.
  apply groupby_sum_amount in H. unfold filtered_df in H.
  rewrite filter_twice in H.
  match type of H with
  | _ = qsum (map _ (filter ?f _)) =>
      destruct (small_filter_sum df f Hsmall) as [z [Hz Hs]]
  end.
  exists z. split; [exact Hz|]. rewrite H. exact Hs.
Qed.

Lemma base_row_small r :
  In r (monthly_base df category_filter gender_filter) ->
  exists z : Z, 0 <= z <= 2 ^ 53 /\ b_Total_Amount r = qz z.
Proof.
  intro H.
  assert (Hin : In (b_Month_Period r, b_Total_Amount r)
                  (base_amounts
                     (monthly_base df category_filter gender_filter)))
    by (unfold base_amounts;
        exact (in_map (fun x => (b_Month_Period x, b_Total_Amount x))
                 _ _ H)).
  rewrite monthly_base_amounts in Hin.
  apply groupby_sum_amount in Hin. unfold base_df in Hin.
  rewrite filter_twice in Hin.
  match type of Hin with
  | _ = qsum (map _ (filter ?f _)) =>
      destruct (small_filter_sum df f Hsmall) as [z [Hz Hs]]
  end.
  exists z. split; [exact Hz|]. rewrite Hin. exact Hs.
Qed.

Lemma filtered_total_small :
  exists z : Z,
    0 <= z <= 2 ^ 53 /\
    qsum (map Total_Amount
            (filtered_df df category_filter gender_filter month_filter))
    = qz z.
Proof. unfold filtered_df. now apply small_filter_sum. Qed.

End ExactSums.

(** X4. On a dataset of small integer amounts (non-negative integers
    adding up to at most 2^53, so that the script's sums neither wrap nor
    round), the amount of a row of the display series is the sum of
    [Total Amount] over the filtered transactions of its period, an integer
    between 0 and 2^53. *)
Theorem display_amount_is_period_total
  (df : list Row) (category_filter gender_filter month_filter : list string)
  (k : MonthPeriod) (v : Qc) :
  small_integer_amounts df ->
  In (k, v) (monthly_sales df category_filter gender_filter month_filter) ->
  v = qsum (map Total_Amount
              (transactions_of k
                 (filtered_df df category_filter gender_filter month_filter)))
  /\ exists z : Z, 0 <= z <= 2 ^ 53 /\ v = qz z.
Proof.
  intros Hsmall Hin. split.
  - rewrite monthly_sales_eq in Hin. now apply groupby_sum_amount in Hin.
  - exact (display_row_small df category_filter gender_filter month_filter
             Hsmall k v Hin).
Qed.

Lemma display_amount_is_period_total_witness :
  small_integer_amounts Sample.df /\
  In (mkPeriod 2023 January, qz 1000)
    (monthly_sales Sample.df Sample.categories Sample.genders
       Sample.all_months) /\
  qz 1000 =
  qsum (map Total_Amount
          (transactions_of (mkPeriod 2023 January)
             (filtered_df Sample.df Sample.categories Sample.genders
                Sample.all_months))).
Proof.
  assert (H0 : small_integer_amounts Sample.df) by small_dataset.
  assert (H : In (mkPeriod 2023 January, qz 1000)
                (monthly_sales Sample.df Sample.categories Sample.genders
                   Sample.all_months))
    by (vm_compute; left; reflexivity).
  split; [exact H0|]. split; [exact H|].
  exact (proj1 (display_amount_is_period_total Sample.df Sample.categories
                  Sample.genders Sample.all_months _ _ H0 H)).
Defined.

(** X22. On a dataset of small integer amounts, [total_revenue] is an
    integer between 0 and 2^53, and narrowing the month filter can only
    lower it. *)
Theorem total_revenue_monotone
  (df : list Row) (category_filter gender_filter narrow wide : list string) :
  small_integer_amounts df ->
  incl narrow wide ->
  exists z1 z2 : Z,
    total_revenue df category_filter gender_filter narrow = Fin (qz z1) /\
    total_revenue df category_filter gender_filter wide = Fin (qz z2) /\
    0 <= z1 <= z2 /\ z2 <= 2 ^ 53.
Proof.
  intros Hsmall Hincl. rewrite !total_revenue_eq.
  destruct (filtered_total_small df category_filter gender_filter narrow
              Hsmall) as [z1 [Hz1 Hs1]].
  destruct (filtered_total_small df category_filter gender_filter wide
              Hsmall) as [z2 [Hz2 Hs2]].
  exists z1, z2. rewrite Hs1, Hs2.
  split; [reflexivity|]. split; [reflexivity|].
  split; [|lia]. split; [lia|].
  apply qz_le. rewrite <- Hs1, <- Hs2.
  rewrite (filtered_df_narrowed df category_filter gender_filter narrow wide
             Hincl).
  apply qsum_filter_le. intros r Hr.
  unfold filtered_df in Hr. apply filter_In in Hr.
  destruct Hsmall as [Hint _]. destruct (Hint r (proj1 Hr)) as [a [Ha ->]].
  change 0%Qc with (qz 0). now apply qz_le.
Qed.

Lemma total_revenue_monotone_witness :
  small_integer_amounts Sample.df /\
  incl Sample.jan_feb Sample.all_months /\
  exists z1 z2 : Z,
    total_revenue Sample.df Sample.categories Sample.genders Sample.jan_feb
      = Fin (qz z1) /\
    total_revenue Sample.df Sample.categories Sample.genders Sample.all_months
      = Fin (qz z2) /\
    0 <= z1 <= z2 /\ z2 <= 2 ^ 53.
Proof.
  assert (H1 : small_integer_amounts Sample.df) by small_dataset.
  assert (H2 : incl Sample.jan_feb Sample.all_months)
    by (intros x [<-|[<-|[]]]; simpl; tauto).
  split; [exact H1|]. split; [exact H2|].
  exact (total_revenue_monotone Sample.df Sample.categories Sample.genders
           _ _ H1 H2).
Defined.

(** X10. On a dataset of small integer amounts, [avg_monthly_revenue] is
    NaN exactly when the display series is empty; otherwise it is a number
    between 0 and 2^53. *)
Theorem avg_monthly_revenue_nan_iff_empty
  (df : list Row) (category_filter gender_filter month_filter : list string) :
  small_integer_amounts df ->
  (avg_monthly_revenue df category_filter gender_filter month_filter = NaN
   <-> monthly_sales df category_filter gender_filter month_filter = []) /\
  (monthly_sales df category_filter gender_filter month_filter <> [] ->
   exists a : Qc,
     avg_monthly_revenue df category_filter gender_filter month_filter
       = Fin a /\
     (0 <= a)%Qc /\ (a <= qz (2 ^ 53))%Qc).
Proof.
  intro Hsmall.
  assert (Hfin : monthly_sales df category_filter gender_filter month_filter
                 <> [] ->
    exists a : Qc,
      avg_monthly_revenue df category_filter gender_filter month_filter
        = Fin a /\
      (0 <= a)%Qc /\ (a <= qz (2 ^ 53))%Qc).
  { intro Hne. rewrite (avg_monthly_revenue_finite _ _ _ _ Hne).
    eexists. split; [reflexivity|].
    assert (Hne' : map snd (monthly_sales df category_filter gender_filter
                              month_filter) <> [])
      by (intro E; apply map_eq_nil in E; contradiction).
    assert (Hne'' : reals (map snd (monthly_sales df category_filter
                                      gender_filter month_filter)) <> [])
      by (intro E; apply map_eq_nil in E; contradiction).
    assert (Hall : forall r,
              In r (reals (map snd (monthly_sales df category_filter
                                      gender_filter month_filter))) ->
              (0 <= r <= IZR (2 ^ 53))%R).
    { intros r Hr. unfold reals in Hr. rewrite map_map in Hr.
      apply in_map_iff in Hr. destruct Hr as [[k v] [<- Hy]]. cbn [snd].
      destruct (display_row_small df category_filter gender_filter
                  month_filter Hsmall k v Hy) as [z [Hz ->]].
      rewrite Q2R_qz. split; [apply (IZR_le 0) | apply IZR_le]; lia. }
    pose proof (Rmean_between _ _ _ Hne'' Hall) as [H1 H2].
    rewrite <- (Q2R_mean _ Hne') in H1, H2. rewrite length_map in H1, H2.
    split; apply Qcle_Rle.
    - now rewrite Q2R_zero.
    - now rewrite Q2R_qz. }
  split; [|exact Hfin]. split.
  - intro Hnan.
    destruct (monthly_sales df category_filter gender_filter month_filter)
      as [|x l] eqn:E; [reflexivity|].
    exfalso. destruct Hfin as [a [Ha _]]; [discriminate|].
    rewrite Ha in Hnan. discriminate Hnan.
  - intro E. unfold avg_monthly_revenue. rewrite E. reflexivity.
Qed.

Lemma avg_monthly_revenue_nan_iff_empty_witness :
  small_integer_amounts Sample.df /\
  avg_monthly_revenue Sample.df Sample.categories Sample.genders
    Sample.no_month = NaN /\
  avg_monthly_revenue Sample.df Sample.categories Sample.genders
    Sample.all_months <> NaN.
Proof.
  assert (H0 : small_integer_amounts Sample.df) by small_dataset.
  split; [exact H0|].
  pose proof (avg_monthly_revenue_nan_iff_empty Sample.df Sample.categories
                Sample.genders Sample.no_month H0) as [[_ H1] _].
  pose proof (avg_monthly_revenue_nan_iff_empty Sample.df Sample.categories
                Sample.genders Sample.all_months H0) as [[H2 _] _].
  split; [apply H1; reflexivity|].
  intro E. apply H2 in E. vm_compute in E. discriminate E.
Defined.

(** X12. On a dataset of small integer amounts, when the insights are
    shown, the sums of the worst and of the best month are integers between
    0 and 2^53 and the average monthly revenue lies between them. *)
Theorem average_between_worst_and_best
  (df : list Row) (category_filter gender_filter month_filter : list string) :
  small_integer_amounts df ->
  (2 <= List.length
          (monthly_sales df category_filter gender_filter month_filter))%nat ->
  exists i b w a,
    insights df category_filter gender_filter month_filter = Some i /\
    i_best_month i = Some b /\ i_worst_month i = Some w /\
    avg_monthly_revenue df category_filter gender_filter month_filter
      = Fin a /\
    (snd w <= a)%Qc /\ (a <= snd b)%Qc /\
    exists zw zb : Z,
      snd w = qz zw /\ snd b = qz zb /\ 0 <= zw <= zb /\ zb <= 2 ^ 53.
Proof.
  intros Hsmall Hlen.
  assert (Hne : monthly_sales df category_filter gender_filter month_filter
                <> [])
    by (intro E; rewrite E in Hlen; simpl in Hlen; lia).
  rewrite (avg_monthly_revenue_finite _ _ _ _ Hne).
  pose proof (display_row_small df category_filter gender_filter month_filter
                Hsmall) as Hrows.
  unfold insights.
  destruct (Nat.leb_spec 2 (List.length
              (monthly_sales df category_filter gender_filter month_filter)))
    as [_|Hlt]; [|lia].
  destruct (monthly_sales df category_filter gender_filter month_filter)
    as [|x l] eqn:Ems; [now contradiction Hne|].
  eexists. exists (idxmax_from x l), (idxmin_from x l). eexists.
  split; [reflexivity|]. cbn [i_best_month i_worst_month].
  split; [reflexivity|]. split; [reflexivity|]. split; [reflexivity|].
  destruct (idxmax_from_first l x) as [a1 [a2 [Ha [Ha1 Ha2]]]].
  destruct (idxmin_from_first l x) as [b1 [b2 [Hb [Hb1 Hb2]]]].
  assert (Hbounds : forall y, In y (x :: l) ->
            (snd (idxmin_from x l) <= snd y)%Qc /\
            (snd y <= snd (idxmax_from x l))%Qc).
  { intros y Hy. split.
    - rewrite Hb in Hy. apply in_app_or in Hy.
      destruct Hy as [Hy|[<-|Hy]];
        [apply Qclt_le_weak; now apply Hb1 | apply Qcle_refl | now apply Hb2].
    - rewrite Ha in Hy. apply in_app_or in Hy.
      destruct Hy as [Hy|[<-|Hy]];
        [apply Qclt_le_weak; now apply Ha1 | apply Qcle_refl | now apply Ha2]. }
  assert (Hall : forall r, In r (reals (map snd (x :: l))) ->
            (Q2R (snd (idxmin_from x l)) <= r <= Q2R (snd (idxmax_from x l)))%R).
  { intros r Hr. unfold reals in Hr. rewrite map_map in Hr.
    apply in_map_iff in Hr. destruct Hr as [y [<- Hy]].
    destruct (Hbounds y Hy). split; now apply Qcle_Rle. }
  assert (Hne' : map snd (x :: l) <> []) by discriminate.
  assert (Hne'' : reals (map snd (x :: l)) <> []) by discriminate.
  pose proof (Rmean_between _ _ _ Hne'' Hall) as [H1 H2].
  rewrite <- (Q2R_mean _ Hne') in H1, H2.
  rewrite length_map in H1, H2.
  split; [now apply Qcle_Rle|]. split; [now apply Qcle_Rle|].
  assert (Hw : In (idxmin_from x l) (x :: l))
    by (rewrite Hb; apply in_or_app; right; now left).
  assert (Hx : In (idxmax_from x l) (x :: l))
    by (rewrite Ha; apply in_or_app; right; now left).
  destruct (idxmin_from x l) as [kw vw] eqn:Ew.
  destruct (idxmax_from x l) as [kb vb] eqn:Eb.
  destruct (Hrows kw vw Hw) as [zw [Hzw Hvw]].
  destruct (Hrows kb vb Hx) as [zb [Hzb Hvb]].
  exists zw, zb. cbn [snd]. split; [exact Hvw|]. split; [exact Hvb|].
  split; [|lia]. split; [lia|].
  apply qz_le. rewrite <- Hvw, <- Hvb.
  exact (proj2 (Hbounds (kw, vw) Hw)).
Qed.

Lemma average_between_worst_and_best_witness :
  small_integer_amounts Sample.df /\
  (2 <= List.length
          (monthly_sales Sample.df Sample.categories Sample.genders
             Sample.all_months))%nat /\
  exists i b w a,
    insights Sample.df Sample.categories Sample.genders Sample.all_months
      = Some i /\
    i_best_month i = Some b /\ i_worst_month i = Some w /\
    avg_monthly_revenue Sample.df Sample.categories Sample.genders
      Sample.all_months = Fin a /\
    (snd w <= a)%Qc /\ (a <= snd b)%Qc.
Proof.
  assert (H0 : small_integer_amounts Sample.df) by small_dataset.
  assert (H : (2 <= List.length
                 (monthly_sales Sample.df Sample.categories Sample.genders
                    Sample.all_months))%nat)
    by (vm_compute; lia).
  split; [exact H0|]. split; [exact H|].
  destruct (average_between_worst_and_best Sample.df Sample.categories
              Sample.genders Sample.all_months H0 H)
    as [i [b [w [a [H1 [H2 [H3 [H4 [H5 [H6 _]]]]]]]]]].
  exists i, b, w, a. repeat split; assumption.
Defined.

(** X13. On a dataset of small integer amounts, when the insights are
    shown, every displayed sum is an integer between 0 and 2^53 and
    [revenue_std] is 0 exactly when all displayed months have the same
    sum. *)
Theorem revenue_std_zero_iff_constant
  (df : list Row) (category_filter gender_filter month_filter : list string) :
  small_integer_amounts df ->
  (2 <= List.length
          (monthly_sales df category_filter gender_filter month_filter))%nat ->
  (forall x,
     In x (monthly_sales df category_filter gender_filter month_filter) ->
     exists z : Z, 0 <= z <= 2 ^ 53 /\ snd x = qz z) /\
  (revenue_std df category_filter gender_filter month_filter = Some 0%R <->
   forall x y,
     In x (monthly_sales df category_filter gender_filter month_filter) ->
     In y (monthly_sales df category_filter gender_filter month_filter) ->
     snd x = snd y).
Proof.
  intros Hsmall Hlen. split.
  { intros [k v] Hx.
    exact (display_row_small df category_filter gender_filter month_filter
             Hsmall k v Hx). }
  unfold revenue_std, std.
  assert (Hlen' : (2 <= List.length (map snd
             (monthly_sales df category_filter gender_filter month_filter)))%nat)
    by (now rewrite length_map).
  destruct (var_real _ Hlen') as [v [Hv Hr]].
  pose proof (var_nonneg _ _ Hv) as Hnn.
  rewrite Hv. cbn [option_map].
  set (sums := map snd
         (monthly_sales df category_filter gender_filter month_filter)) in *.
  assert (Hn : (1 < INR (List.length sums))%R)
    by (change 1%R with (INR 1); apply lt_INR; lia).
  assert (Hzero : sqrt (Q2R v) = 0%R <-> sq_dev_sum (reals sums) = 0%R).
  { split; intro H.
    - apply sqrt_eq_0 in H; [|exact Hnn]. rewrite Hr in H.
      apply Rmult_integral in H. destruct H as [H|H]; [exact H|].
      exfalso. assert (0 < / (INR (List.length sums) - 1))%R
        by (apply Rinv_0_lt_compat; lra). lra.
    - rewrite Hr, H. unfold Rdiv. rewrite Rmult_0_l. apply sqrt_0. }
  assert (Hin : forall x,
            In x (monthly_sales df category_filter gender_filter month_filter)
            -> In (Q2R (snd x)) (reals sums)).
  { intros x Hx. unfold reals, sums. rewrite map_map.
    exact (in_map (fun r : MonthPeriod * Qc => Q2R (this (snd r))) _ _ Hx). }
  split.
  - intros H x y Hx Hy. injection H as H. apply Hzero in H.
    unfold sq_dev_sum in H. cbv zeta in H.
    pose proof (proj1 (Rsum_squares_zero _ _) H) as Hall.
    apply Q2R_Qc_inj.
    rewrite (Hall _ (Hin x Hx)), (Hall _ (Hin y Hy)). reflexivity.
  - intro H. f_equal. apply Hzero.
    unfold sq_dev_sum. cbv zeta. apply Rsum_squares_zero.
    destruct (monthly_sales df category_filter gender_filter month_filter)
      as [|x0 l] eqn:Ems; [simpl in Hlen; lia|].
    assert (Hc : forall r, In r (reals sums) -> r = Q2R (snd x0)).
    { intros r Hr'. unfold reals, sums in Hr'. rewrite map_map in Hr'.
      apply in_map_iff in Hr'. destruct Hr' as [y [<- Hy]].
      f_equal. f_equal. apply H; [exact Hy | now left]. }
    assert (Hlenr : List.length (reals sums) = List.length sums)
      by (unfold reals; apply length_map).
    intros r Hr'. rewrite (Rsum_constant _ _ Hc), (Hc r Hr'), Hlenr.
    field. lra.
Qed.

Lemma revenue_std_zero_iff_constant_witness :
  small_integer_amounts Sample2.df_zero /\
  (2 <= List.length
          (monthly_sales Sample2.df_zero Sample.categories Sample.genders
             ["March"; "April"]%string))%nat /\
  revenue_std Sample2.df_zero Sample.categories Sample.genders
    ["March"; "April"]%string = Some 0%R.
Proof.
  assert (H0 : small_integer_amounts Sample2.df_zero) by small_dataset.
  assert (H : (2 <= List.length
                 (monthly_sales Sample2.df_zero Sample.categories
                    Sample.genders ["March"; "April"]%string))%nat)
    by (vm_compute; lia).
  split; [exact H0|]. split; [exact H|].
  apply (proj2 (proj2 (revenue_std_zero_iff_constant Sample2.df_zero
                         Sample.categories Sample.genders _ H0 H))).
  intros x y Hx Hy. vm_compute in Hx, Hy.
  destruct Hx as [<-|[<-|[]]]; destruct Hy as [<-|[<-|[]]]; reflexivity.
Defined.

Lemma fgtb_zero_left (q : Qc) : fgtb zero (Fin q) = true <-> (q < 0)%Qc.
Proof.
  unfold fgtb, zero. change (qz 0) with 0%Qc.
  change (q < 0)%Qc with (0 > q)%Qc. rewrite Qcgt_alt.
  destruct (Qccompare 0%Qc q); split; intro H;
    (reflexivity || discriminate H).
Qed.

(** X8. On a dataset of small integer amounts, with a positive base sum
    for the previous month: the base sums of the previous and of the
    selected month are integers between 0 and 2^53, and [expected_growth]
    is positive exactly when the selected month's sum is the larger one,
    negative exactly when it is the smaller one, and 0 exactly when the two
    are equal. *)
Theorem expected_growth_direction
  (df : list Row) (category_filter gender_filter month_filter : list string)
  (last_row : MonthPeriod * Qc) (pr cr : BaseRow) :
  small_integer_amounts df ->
  iloc_last (monthly_sales df category_filter gender_filter month_filter)
    = Some last_row ->
  In pr (monthly_base df category_filter gender_filter) ->
  b_Month_Period pr = minus_one_month (fst last_row) ->
  In cr (monthly_base df category_filter gender_filter) ->
  b_Month_Period cr = fst last_row ->
  (0 < b_Total_Amount pr)%Qc ->
  let e :=
    expected_growth
      (forecast df category_filter gender_filter month_filter) in
  exists zp zc : Z,
    b_Total_Amount pr = qz zp /\ b_Total_Amount cr = qz zc /\
    0 < zp <= 2 ^ 53 /\ 0 <= zc <= 2 ^ 53 /\
    (fgtb e zero = true <-> zp < zc) /\
    (fgtb zero e = true <-> zc < zp) /\
    (e = zero <-> zc = zp).
Proof.
  intros Hsmall Hlast Hpr Hkp Hcr Hkc Hpos e. subst e.
  destruct (base_row_small df category_filter gender_filter Hsmall pr Hpr)
    as [zp [Hzp Ep]].
  destruct (base_row_small df category_filter gender_filter Hsmall cr Hcr)
    as [zc [Hzc Ec]].
  exists zp, zc. split; [exact Ep|]. split; [exact Ec|].
  assert (Hzp' : 0 < zp).
  { apply qz_lt. rewrite <- Ep. exact Hpos. }
  split; [lia|]. split; [lia|].
  assert (Hnz : b_Total_Amount pr <> 0%Qc).
  { intro E. rewrite E in Hpos. now apply Qclt_alt in Hpos. }
  rewrite (forecast_found _ _ _ _ _ _ _ Hlast Hpr Hkp Hcr Hkc).
  cbn [expected_growth].
  assert (Hg : b_Growth_Rate cr =
               fsub (fdiv (Fin (b_Total_Amount cr))
                       (Fin (b_Total_Amount pr))) one).
  { rewrite monthly_base_eq in Hpr, Hcr.
    apply (growth_against_previous _ _ _ _
             (groupby_sum_ascending _ _ _) Hpr Hcr).
    rewrite Hkp, Hkc, ord_minus_one_month. lia. }
  rewrite Hg, pct_change_rate, (fdiv_finite _ _ Hnz).
  cbn [notna fmul hundred].
  remember ((b_Total_Amount cr - b_Total_Amount pr) / b_Total_Amount pr
            * qz 100)%Qc as g eqn:Eg.
  assert (Hsign :
    ((0 < Q2R g)%R <-> (Q2R (b_Total_Amount pr) < Q2R (b_Total_Amount cr))%R)
    /\
    ((Q2R g < 0)%R <-> (Q2R (b_Total_Amount cr) < Q2R (b_Total_Amount pr))%R)).
  { rewrite Eg.
    rewrite Q2R_Qcmult, Q2R_Qcdiv, Q2R_Qcminus, Q2R_qz by exact Hnz.
    apply Qclt_Rlt in Hpos. rewrite Q2R_zero in Hpos.
    set (c := Q2R (b_Total_Amount cr)) in *.
    set (p := Q2R (b_Total_Amount pr)) in *.
    assert (Hinv : (0 < / p)%R) by now apply Rinv_0_lt_compat.
    assert (E : ((c - p) / p * 100 = (c - p) * (/ p * 100))%R)
      by (field; lra).
    rewrite E.
    assert (Hk : (0 < / p * 100)%R) by nra.
    split; split; intro H; nra. }
  destruct Hsign as [Hgt Hlt].
  rewrite Ep, Ec, !Q2R_qz in Hgt, Hlt.
  split; [|split].
  - rewrite fgtb_zero, Qclt_Rlt, Q2R_zero, Hgt.
    split; [apply lt_IZR | apply IZR_lt].
  - rewrite fgtb_zero_left, Qclt_Rlt, Q2R_zero, Hlt.
    split; [apply lt_IZR | apply IZR_lt].
  - split.
    + intro E. unfold zero in E. injection E as E.
      assert (E0 : Q2R g = 0%R) by (rewrite E; apply Q2R_zero).
      destruct (Z.lt_trichotomy zc zp) as [H|[H|H]]; [|exact H|].
      * apply IZR_lt, Hlt in H. lra.
      * apply IZR_lt, Hgt in H. lra.
    + intro E. unfold zero. f_equal. apply Q2R_Qc_inj.
      rewrite (Q2R_qz 0).
      destruct (Rtotal_order (Q2R g) 0) as [H|[H|H]]; [|exact H|].
      * apply Hlt, lt_IZR in H. lia.
      * apply Hgt, lt_IZR in H. lia.
Qed.

Lemma expected_growth_direction_witness :
  let base := monthly_base Sample.df Sample.categories Sample.genders in
  let last_row := (mkPeriod 2023 March, qz 900) in
  let pr := nth 1 base (mkBase (mkPeriod 0 January) (qz 0) NaN) in
  let cr := nth 2 base (mkBase (mkPeriod 0 January) (qz 0) NaN) in
  let e :=
    expected_growth
      (forecast Sample.df Sample.categories Sample.genders
         Sample.all_months) in
  small_integer_amounts Sample.df /\
  iloc_last (monthly_sales Sample.df Sample.categories Sample.genders
               Sample.all_months) = Some last_row /\
  In pr base /\ b_Month_Period pr = minus_one_month (fst last_row) /\
  In cr base /\ b_Month_Period cr = fst last_row /\
  (0 < b_Total_Amount pr)%Qc /\
  fgtb zero e = true.
Proof.
  cbv zeta.
  match goal with
  | |- ?S /\ ?A /\ ?B /\ ?C /\ ?D /\ ?E /\ ?F /\ _ =>
      assert (H0 : S) by small_dataset;
      assert (H1 : A) by (vm_compute; reflexivity);
      assert (H2 : B) by (vm_compute; right; left; reflexivity);
      assert (H3 : C) by (vm_compute; reflexivity);
      assert (H4 : D) by (vm_compute; right; right; left; reflexivity);
      assert (H5 : E) by (vm_compute; reflexivity);
      assert (H6 : F) by (vm_compute; reflexivity)
  end.
  repeat (split; [assumption|]).
  destruct (expected_growth_direction Sample.df Sample.categories
              Sample.genders Sample.all_months _ _ _ H0 H1 H2 H3 H4 H5 H6)
    as [zp [zc [Ep [Ec [_ [_ [_ [Hneg _]]]]]]]].
  apply Hneg.
  match type of Ep with
  | ?x = _ => assert (Ap : x = qz 1200) by (vm_compute; reflexivity)
  end.
  match type of Ec with
  | ?x = _ => assert (Ac : x = qz 900) by (vm_compute; reflexivity)
  end.
  rewrite Ap in Ep. rewrite Ac in Ec.
  apply qz_eq in Ep, Ec. subst zp zc. lia.
Defined.
